(** * CudaBondedUtilities: the bonded-force kernel builder of the CUDA platform

    A shallow embedding of [platforms/cuda2/src/CudaBondedUtilities.cpp]:
    the registry of bonded terms, the packing of atom indices into device
    arrays, the textual synthesis of the [computeBondedForces] kernel and the
    dispatch entry point, followed by the properties established about them.

    Conventions.  Container sizes and loop counters, which the source holds
    in [int], are natural numbers here (they are sizes of in-memory vectors,
    far below 2^31, so the [int] arithmetic on them does not wrap).  Atom
    indices are [int] values stored into [unsigned int] cells; that
    conversion is written out as [to_unsigned].  A [std::stringstream] is the
    string built so far and [s << x] appends the rendering of [x]. *)

From Stdlib Require Import ZArith Lia String Ascii DecimalString.
From stdpp Require Import base list strings gmap.
From Equations Require Import Equations.

Local Open Scope Z_scope.
Local Open Scope nat_scope.

(** ** Integers and text *)

Definition UINT_MODULUS : Z := 2 ^ 32.

(** Conversion of an [int] to [unsigned int]: reduction modulo 2^32. *)
Definition to_unsigned (v : Z) : Z := (v mod UINT_MODULUS)%Z.

(** Wrap-around of a mathematical integer into the range of [int]. *)
Definition to_int (v : Z) : Z :=
  ((v + 2 ^ 31) mod UINT_MODULUS - 2 ^ 31)%Z.

(** Modelled from the spec: [CudaContext::intToString], declared outside the
    files at hand; the collaborator contract describes it as the helper that
    renders an integer as program text, i.e. in decimal. *)
Definition intToString (n : Z) : string := NilZero.string_of_int (Z.to_int n).

(** [s << n] for a counter or size. *)
Definition dec (n : nat) : string := intToString (Z.of_nat n).

Definition nl : string := String (ascii_of_nat 10) EmptyString.
Definition dquote : string := String (ascii_of_nat 34) EmptyString.

(** [for (int i = 0; i < n; i++) body], threading the loop state. *)
Definition for_loop {S : Type} (n : nat) (body : nat -> S -> S) (s : S) : S :=
  foldl (fun acc i => body i acc) s (seq 0 n).

(** ** Device arrays

    [CudaArray] is declared outside the files at hand.  What this unit uses
    of it: [create<T>(size, name)] allocates [size] elements and records the
    element size [sizeof(T)], [upload] copies a host vector into it, and
    [getElementSize] returns the recorded element size. *)

(** A cell of an index vector: a determinate [unsigned int], or the result
    of reading a bond record past its end ([operator[]] does no bounds
    check, so nothing determinate is obtained). *)
Inductive cell : Type :=
| Value (v : Z)
| OutOfBounds.

#[global] Instance cell_eq_dec : EqDecision cell.
Proof. solve_decision. Defined.

Record CudaArray : Type := mkCudaArray {
  getSize : nat;
  getElementSize : nat;
  getName : string;
  contents : list cell
}.

Section Packing.

(** [sizeof(unsigned int)] on the target, a platform constant. *)
Variable sizeofUnsignedInt : nat.

(** [CudaArray::create<unsigned int>(size, name)] followed by [upload]. *)
Definition createAndUpload (indexVec : list cell) (name : string) : CudaArray :=
  mkCudaArray (length indexVec) sizeofUnsignedInt name indexVec.

(** [forceAtoms[i][bond][k]] converted to [unsigned int]. *)
Definition readAtom (atoms : list (list Z)) (bond k : nat) : cell :=
  match atoms !! bond with
  | Some record =>
      match record !! k with
      | Some v => Value (to_unsigned v)
      | None => OutOfBounds
      end
  | None => OutOfBounds
  end.

(** Lines 76-78: the lane width chosen at [startAtom]. *)
Definition chooseWidth (numAtoms startAtom : nat) : nat :=
  let width := Nat.max (numAtoms - startAtom) 4 in
  if Nat.eqb width 3 then 4 else width.

(** Lines 79-83: the host vector of one block. *)
Definition fillIndexVec (atoms : list (list Z)) (numBonds width startAtom : nat)
  : list cell :=
  for_loop numBonds (fun bond indexVec =>
    for_loop width (fun atom indexVec =>
      <[bond * width + atom := readAtom atoms bond (startAtom + atom)]> indexVec)
      indexVec)
    (replicate (width * numBonds) (Value 0)).

(** Lines 74-88: the [while (startAtom < numAtoms)] loop of one term;
    [blocks] is [atomIndices[i]], to which every block is pushed. *)
Equations packLoop (atoms : list (list Z)) (numBonds numAtoms startAtom : nat)
          (blocks : list CudaArray) : list CudaArray
  by wf (numAtoms - startAtom) lt :=
  packLoop atoms numBonds numAtoms startAtom blocks
    with lt_dec startAtom numAtoms := {
    | left _ =>
        let width := chooseWidth numAtoms startAtom in
        let indexVec := fillIndexVec atoms numBonds width startAtom in
        let indices := createAndUpload indexVec "bondedIndices" in
        packLoop atoms numBonds numAtoms (startAtom + width) (blocks ++ [indices])
    | right _ => blocks }.
Next Obligation.
  unfold chooseWidth.
  destruct (Nat.eqb_spec (Nat.max (numAtoms - startAtom) 4) 3); lia.
Qed.

(** Ghost reading of a block's vector: position [p] is lane [p mod width]
    of bond [p / width]. *)
Definition expectedCell (atoms : list (list Z)) (width startAtom p : nat) : cell :=
  readAtom atoms (p / width) (startAtom + p mod width).

(** The block the loop body builds when entered at [startAtom]. *)
Definition blockAt (atoms : list (list Z)) (numBonds numAtoms startAtom : nat)
  : CudaArray :=
  createAndUpload
    (fillIndexVec atoms numBonds (chooseWidth numAtoms startAtom) startAtom)
    "bondedIndices".

End Packing.

(** ** The registry *)

Definition CUdeviceptr : Type := N.
Definition CUmodule : Type := N.
Definition CUfunction : Type := N.

(** The members of [CudaBondedUtilities] (the [context] reference is kept
    apart, below).  [kernel] is not set by the constructor: [None] until
    [initialize] assigns it. *)
Record CudaBondedUtilities : Type := mkUtilities {
  numForceBuffers : nat;
  maxBonds : nat;
  hasInitializedKernels : bool;
  forceAtoms : list (list (list Z));
  forceSource : list string;
  forceGroup : list Z;
  arguments : list CUdeviceptr;
  argTypes : list string;
  prefixCode : list string;
  atomIndices : list (list CudaArray);
  kernel : option CUfunction
}.

(** Line 36: the constructor. *)
Definition newUtilities : CudaBondedUtilities :=
  mkUtilities 0 0 false [] [] [] [] [] [] [] None.

Definition set_maxBonds (v : nat) (u : CudaBondedUtilities) : CudaBondedUtilities :=
  mkUtilities (numForceBuffers u) v (hasInitializedKernels u) (forceAtoms u)
    (forceSource u) (forceGroup u) (arguments u) (argTypes u) (prefixCode u)
    (atomIndices u) (kernel u).

Definition set_atomIndices (v : list (list CudaArray)) (u : CudaBondedUtilities)
  : CudaBondedUtilities :=
  mkUtilities (numForceBuffers u) (maxBonds u) (hasInitializedKernels u) (forceAtoms u)
    (forceSource u) (forceGroup u) (arguments u) (argTypes u) (prefixCode u)
    v (kernel u).

(** Lines 45-51. *)
Definition addInteraction (u : CudaBondedUtilities) (atoms : list (list Z))
           (source : string) (group : Z) : CudaBondedUtilities :=
  if Nat.ltb 0 (length atoms) then
    mkUtilities (numForceBuffers u) (maxBonds u) (hasInitializedKernels u)
      (forceAtoms u ++ [atoms]) (forceSource u ++ [source]) (forceGroup u ++ [group])
      (arguments u) (argTypes u) (prefixCode u) (atomIndices u) (kernel u)
  else u.

(** Lines 53-57: the returned name and the updated registry. *)
Definition addArgument (u : CudaBondedUtilities) (data : CUdeviceptr) (type : string)
  : string * CudaBondedUtilities :=
  let u' :=
    mkUtilities (numForceBuffers u) (maxBonds u) (hasInitializedKernels u)
      (forceAtoms u) (forceSource u) (forceGroup u)
      (arguments u ++ [data]) (argTypes u ++ [type]) (prefixCode u)
      (atomIndices u) (kernel u) in
  ("customArg" +:+ dec (length (arguments u')), u').

(** Lines 59-61. *)
Definition addPrefixCode (u : CudaBondedUtilities) (source : string)
  : CudaBondedUtilities :=
  mkUtilities (numForceBuffers u) (maxBonds u) (hasInitializedKernels u)
    (forceAtoms u) (forceSource u) (forceGroup u) (arguments u) (argTypes u)
    (prefixCode u ++ [source]) (atomIndices u) (kernel u).

(** ** Kernel synthesis *)

Definition suffix1 : list string := [EmptyString].
Definition suffix4 : list string := [".x"; ".y"; ".z"; ".w"].

(** ["unsigned int"+(indexWidth == 1 ? "" : context.intToString(indexWidth))] *)
Definition indexTypeOf (indexWidth : nat) : string :=
  "unsigned int" +:+ (if Nat.eqb indexWidth 1 then EmptyString else dec indexWidth).

(** Lines 130-139: the body of the loop over the blocks of a term, on the
    pair of the stream and [startAtom].  [suffix[j]] past the end of the
    suffix table (not checked by the source) renders as nothing. *)
Definition unpackBlock (forceIndex i : nat) (arr : CudaArray) (acc : string * nat)
  : string * nat :=
  let '(s, startAtom) := acc in
  let indexWidth := getElementSize arr / 4 in
  let suffix := if Nat.eqb indexWidth 1 then suffix1 else suffix4 in
  let indexType := indexTypeOf indexWidth in
  let s := s +:+ "    " +:+ indexType +:+ " atoms" +:+ dec i +:+ " = atomIndices"
             +:+ dec forceIndex +:+ "_" +:+ dec i +:+ "[index];" +:+ nl in
  let s := s +:+ "    " +:+ indexType +:+ " buffers = bufferIndices"
             +:+ dec forceIndex +:+ "[index];" +:+ nl in
  let s := for_loop indexWidth (fun j s =>
             let s := s +:+ "    unsigned int atom" +:+ dec (startAtom + j + 1)
                        +:+ " = atoms" +:+ dec i +:+ default EmptyString (suffix !! j)
                        +:+ ";" +:+ nl in
             s +:+ "    real4 pos" +:+ dec (j + 1) +:+ " = posq[atom" +:+ dec (j + 1)
               +:+ "];" +:+ nl) s in
  (s, startAtom + indexWidth).

(** Lines 142-146: the scatter of the forces of one atom. *)
Definition scatterAtom (i : nat) (s : string) : string :=
  let s := s +:+ "    atomicAdd(&forceBuffer[atom" +:+ dec (i + 1)
             +:+ "], (long) (force.x*0xFFFFFFFF));" +:+ nl in
  let s := s +:+ "    atomicAdd(&forceBuffer[atom" +:+ dec (i + 1)
             +:+ "+PADDED_NUM_ATOMS], (long) (force.x*0xFFFFFFFF));" +:+ nl in
  s +:+ "    atomicAdd(&forceBuffer[atom" +:+ dec (i + 1)
    +:+ "+PADDED_NUM_ATOMS*2], (long) (force.x*0xFFFFFFFF));" +:+ nl.

(** Lines 120-149.  The method updates [maxBonds] and returns the text; it
    reads [atomIndices[forceIndex]] (no blocks when the index is out of
    range, which [initialize] never passes). *)
Definition createForceSource (u : CudaBondedUtilities)
           (forceIndex numBonds numAtoms : nat) (group : Z) (computeForce : string)
  : string * CudaBondedUtilities :=
  let u := set_maxBonds (Nat.max (maxBonds u) numBonds) u in
  let blocks := default [] (atomIndices u !! forceIndex) in
  let s := EmptyString in
  let s := s +:+ "if ((groups&" +:+ intToString (to_int (Z.shiftl 1 group))
             +:+ ") != 0)" +:+ nl in
  let s := s +:+ "for (unsigned int index = blockIdx.x*blockDim.x+threadIdx.x; index < "
             +:+ dec numBonds +:+ "; index += blockDim.x*gridDim.x) {" +:+ nl in
  let '(s, _) :=
    for_loop (length blocks) (fun i acc =>
      match blocks !! i with
      | Some arr => unpackBlock forceIndex i arr acc
      | None => acc
      end) (s, 0) in
  let s := s +:+ computeForce +:+ nl in
  let s := for_loop numAtoms scatterAtom s in
  let s := s +:+ "}" +:+ nl in
  (s, u).

(** ** Building and dispatching *)

(** What this unit uses of [CudaContext] (declared outside the files at
    hand): the padded atom count, and the two calls that turn kernel text
    into a callable handle.  Either call may throw; that is [None] here. *)
Record CudaContext : Type := mkContext {
  getPaddedNumAtoms : nat;
  createModule : string -> gmap string string -> option CUmodule;
  getKernel : CUmodule -> string -> option CUfunction
}.

(** How a call of [initialize] ends. *)
Inductive outcome : Type :=
| Returned
| Threw.

(** A kernel launch handed to the context ([executeKernel]). *)
Record KernelLaunch : Type := mkLaunch {
  launchedKernel : CUfunction;
  launchGroups : Z;
  launchSize : nat
}.

Section Build.

Variable sizeofUnsignedInt : nat.
Variable context : CudaContext.

(** Lines 72-88, for term [i]: the blocks of the term pushed onto
    [atomIndices[i]].  [forceAtoms[i][0]] of a term without bond records
    (which [addInteraction] never stores) counts no atoms. *)
Definition packTerm (atoms : list (list Z)) (blocks : list CudaArray)
  : list CudaArray :=
  let numBonds := length atoms in
  let numAtoms := length (default [] (atoms !! 0)) in
  packLoop sizeofUnsignedInt atoms numBonds numAtoms 0 blocks.

(** Lines 70-89. *)
Definition buildAtomIndices (forceAtoms : list (list (list Z)))
           (atomIndices : list (list CudaArray)) : list (list CudaArray) :=
  let numForces := length forceAtoms in
  for_loop numForces (fun i atomIndices =>
    <[i := packTerm (default [] (forceAtoms !! i)) (default [] (atomIndices !! i))]>
      atomIndices)
    (resize numForces [] atomIndices).

(** The registry once lines 70-89 have run. *)
Definition packAll (u : CudaBondedUtilities) : CudaBondedUtilities :=
  set_atomIndices (buildAtomIndices (forceAtoms u) (atomIndices u)) u.

(** Lines 96-106: the kernel signature appended to the stream. *)
Definition kernelSignature (u : CudaBondedUtilities) (s : string) : string :=
  let numForces := length (forceAtoms u) in
  let s := s +:+ "extern " +:+ dquote +:+ "C" +:+ dquote
             +:+ " __global__ void computeBondedForces(long* __restrict__ forceBuffer, real* __restrict__ energyBuffer, const real4* __restrict__ posq, int groups" in
  let s := for_loop numForces (fun force s =>
             let blocks := default [] (atomIndices u !! force) in
             for_loop (length blocks) (fun i s =>
               match blocks !! i with
               | Some arr =>
                   let indexWidth := getElementSize arr / 4 in
                   let indexType := indexTypeOf indexWidth in
                   s +:+ ", const " +:+ indexType +:+ "* __restrict__ atomIndices"
                     +:+ dec force +:+ "_" +:+ dec i
               | None => s
               end) s) s in
  let s := for_loop (length (arguments u)) (fun i s =>
             s +:+ ", " +:+ default EmptyString (argTypes u !! i)
               +:+ "* customArg" +:+ dec (i + 1)) s in
  s +:+ ") {" +:+ nl.

(** Lines 93-111: the kernel text, and the registry as the calls of
    [createForceSource] leave it. *)
Definition kernelSource (u : CudaBondedUtilities) : string * CudaBondedUtilities :=
  let numForces := length (forceAtoms u) in
  let s := EmptyString in
  let s := for_loop (length (prefixCode u)) (fun i s =>
             s +:+ default EmptyString (prefixCode u !! i)) s in
  let s := kernelSignature u s in
  let s := s +:+ "real energy = 0;" +:+ nl in
  let '(s, u) :=
    for_loop numForces (fun force acc =>
      let '(s, u) := acc in
      let atoms := default [] (forceAtoms u !! force) in
      let '(text, u) :=
        createForceSource u force (length atoms) (length (default [] (atoms !! 0)))
          (default 0%Z (forceGroup u !! force))
          (default EmptyString (forceSource u !! force)) in
      (s +:+ text, u)) (s, u) in
  let s := s +:+ "energyBuffer[blockIdx.x*blockDim.x+threadIdx.x] += energy;" +:+ nl in
  let s := s +:+ "}" +:+ nl in
  (s, u).

(** Lines 63-118.  An exception leaves the members as they are at the
    throwing call. *)
Definition initialize (u : CudaBondedUtilities) : outcome * CudaBondedUtilities :=
  let numForces := length (forceAtoms u) in
  if Nat.eqb numForces 0 then (Returned, u)
  else
    let u := packAll u in
    let '(s, u) := kernelSource u in
    let defines : gmap string string :=
      {[ "PADDED_NUM_ATOMS" := dec (getPaddedNumAtoms context) ]} in
    match createModule context s defines with
    | None => (Threw, u)
    | Some module =>
        match getKernel context module "computeBondedForces" with
        | None => (Threw, u)
        | Some k =>
            (Returned,
             mkUtilities (numForceBuffers u) (maxBonds u) (hasInitializedKernels u)
               [] [] (forceGroup u) (arguments u) (argTypes u) (prefixCode u)
               (atomIndices u) (Some k))
        end
    end.

(** Lines 151-173: every statement of the body is commented out.  The
    result is the registry and the launches handed to the context. *)
Definition computeInteractions (u : CudaBondedUtilities) (groups : Z)
  : CudaBondedUtilities * list KernelLaunch :=
  (u, []).

(** *** Call sequences *)

Inductive call : Type :=
| CallAddInteraction (atoms : list (list Z)) (source : string) (group : Z)
| CallAddArgument (data : CUdeviceptr) (type : string)
| CallAddPrefixCode (source : string)
| CallInitialize
| CallComputeInteractions (groups : Z).

Definition perform (u : CudaBondedUtilities) (c : call) : CudaBondedUtilities :=
  match c with
  | CallAddInteraction atoms source group => addInteraction u atoms source group
  | CallAddArgument data type => (addArgument u data type).2
  | CallAddPrefixCode source => addPrefixCode u source
  | CallInitialize => (initialize u).2
  | CallComputeInteractions groups => (computeInteractions u groups).1
  end.

Definition performAll (calls : list call) : CudaBondedUtilities :=
  foldl perform newUtilities calls.

Definition isAddArgument (c : call) : bool :=
  match c with CallAddArgument _ _ => true | _ => false end.

End Build.

(** ** Reading the synthesized text

    The declarations the emitted text makes, collected by the same loops
    that emit it; the lemmas of the last part show that the text is the
    rendering of these lists. *)

Definition concatStrings (l : list string) : string :=
  foldr String.append EmptyString l.

(** [needle] occurs in [text]. *)
Definition contains (needle text : string) : Prop :=
  exists before after, text = before +:+ needle +:+ after.

(** A kernel parameter: its type and its name. *)
Definition renderParameter (p : string * string) : string := p.1 +:+ " " +:+ p.2.

Definition renderParameters (l : list (string * string)) : string :=
  match l with
  | [] => EmptyString
  | p :: rest =>
      renderParameter p +:+ concatStrings ((fun q => ", " +:+ renderParameter q) <$> rest)
  end.

(** The rendering of the parameters after the first. *)
Definition moreParameters (l : list (string * string)) : string :=
  concatStrings ((fun q => ", " +:+ renderParameter q) <$> l).

(** The four parameters of the fixed part of the signature (line 96). *)
Definition fixedParameters : list (string * string) :=
  [("long* __restrict__", "forceBuffer");
   ("real* __restrict__", "energyBuffer");
   ("const real4* __restrict__", "posq");
   ("int", "groups")].

(** The parameters of lines 97-103. *)
Definition indexParameters (u : CudaBondedUtilities) : list (string * string) :=
  for_loop (length (forceAtoms u)) (fun force acc =>
    let blocks := default [] (atomIndices u !! force) in
    for_loop (length blocks) (fun i acc =>
      match blocks !! i with
      | Some arr =>
          acc ++ [("const " +:+ indexTypeOf (getElementSize arr / 4) +:+ "* __restrict__",
                   "atomIndices" +:+ dec force +:+ "_" +:+ dec i)]
      | None => acc
      end) acc) [].

(** The parameters of lines 104-105. *)
Definition argumentParameters (u : CudaBondedUtilities) : list (string * string) :=
  for_loop (length (arguments u)) (fun i acc =>
    acc ++ [(default EmptyString (argTypes u !! i) +:+ "*", "customArg" +:+ dec (i + 1))])
    [].

Definition kernelParameters (u : CudaBondedUtilities) : list (string * string) :=
  fixedParameters ++ indexParameters u ++ argumentParameters u.

(** A local declaration [type name = initializer;]. *)
Record declaration : Type := mkDeclaration {
  declType : string;
  declName : string;
  declInit : string
}.

Definition renderDeclaration (d : declaration) : string :=
  "    " +:+ declType d +:+ " " +:+ declName d +:+ " = " +:+ declInit d +:+ ";" +:+ nl.

Definition renderDeclarations (l : list declaration) : string :=
  concatStrings (renderDeclaration <$> l).

(** The two declarations of lines 136-137 for lane [j]. *)
Definition laneDeclarations (i startAtom indexWidth j : nat) : list declaration :=
  let suffix := if Nat.eqb indexWidth 1 then suffix1 else suffix4 in
  [mkDeclaration "unsigned int" ("atom" +:+ dec (startAtom + j + 1))
     ("atoms" +:+ dec i +:+ default EmptyString (suffix !! j));
   mkDeclaration "real4" ("pos" +:+ dec (j + 1)) ("posq[atom" +:+ dec (j + 1) +:+ "]")].

(** The declarations of lines 133-138 for block [i]. *)
Definition blockDeclarations (forceIndex i startAtom : nat) (arr : CudaArray)
  : list declaration :=
  let indexWidth := getElementSize arr / 4 in
  let indexType := indexTypeOf indexWidth in
  [mkDeclaration indexType ("atoms" +:+ dec i)
     ("atomIndices" +:+ dec forceIndex +:+ "_" +:+ dec i +:+ "[index]");
   mkDeclaration indexType "buffers" ("bufferIndices" +:+ dec forceIndex +:+ "[index]")]
  ++ for_loop indexWidth (fun j acc => acc ++ laneDeclarations i startAtom indexWidth j) [].

(** The declarations of lines 128-140 for term [forceIndex]. *)
Definition termDeclarations (u : CudaBondedUtilities) (forceIndex : nat)
  : list declaration :=
  let blocks := default [] (atomIndices u !! forceIndex) in
  (for_loop (length blocks) (fun i acc =>
     match blocks !! i with
     | Some arr =>
         (acc.1 ++ blockDeclarations forceIndex i acc.2 arr,
          acc.2 + getElementSize arr / 4)
     | None => acc
     end) ([], 0)).1.

(** Every local name the synthesizer itself declares around the snippet of
    term [forceIndex]: the accumulator of line 107, the loop counter of line
    127 and the names of [termDeclarations]. *)
Definition declaredLocals (u : CudaBondedUtilities) (forceIndex : nat) : list string :=
  "energy" :: "index" :: (declName <$> termDeclarations u forceIndex).

(** The text of lines 126-127. *)
Definition loopHeader (numBonds : nat) (group : Z) : string :=
  "if ((groups&" +:+ intToString (to_int (Z.shiftl 1 group)) +:+ ") != 0)" +:+ nl
  +:+ "for (unsigned int index = blockIdx.x*blockDim.x+threadIdx.x; index < "
  +:+ dec numBonds +:+ "; index += blockDim.x*gridDim.x) {" +:+ nl.

(** The body [initialize] emits for term [force] (line 109). *)
Definition termBody (u : CudaBondedUtilities) (force : nat) : string :=
  let atoms := default [] (forceAtoms u !! force) in
  (createForceSource u force (length atoms) (length (default [] (atoms !! 0)))
     (default 0%Z (forceGroup u !! force))
     (default EmptyString (forceSource u !! force))).1.

(** The read of [bufferIndices<force>] emitted on line 134 for a block. *)
Definition bufferIndicesRead (force : nat) (arr : CudaArray) : string :=
  "    " +:+ indexTypeOf (getElementSize arr / 4) +:+ " buffers = bufferIndices"
  +:+ dec force +:+ "[index];" +:+ nl.

(** A name that does not begin with [bufferIndices]. *)
Definition notBufferIndices (name : string) : Prop :=
  forall rest : string, name <> "bufferIndices" +:+ rest.

(** ** The specification's wording, for comparison *)

(** The width as the specification words it: 4, except [A - o] on a final
    block with [A - o < 4] and [A - o <> 3]. *)
Definition describedWidth (numAtoms startAtom : nat) : nat :=
  let rest := numAtoms - startAtom in
  if Nat.ltb rest 4 && negb (Nat.eqb rest 3) then rest else 4.

(** The number of blocks as the specification words it: ceil(A / 4). *)
Definition describedBlockCount (numAtoms : nat) : nat := (numAtoms + 3) / 4.

(** The number of [addArgument] calls in a call sequence. *)
Definition argumentCalls (calls : list call) : nat :=
  length (List.filter isAddArgument calls).

(** ** Teardown and call histories *)

(** Lines 39-43: the destructor, as the arrays it deletes, in order. *)
Definition destructor (u : CudaBondedUtilities) : list CudaArray :=
  for_loop (length (atomIndices u)) (fun i deleted =>
    let row := default [] (atomIndices u !! i) in
    for_loop (length row) (fun j deleted =>
      match row !! j with
      | Some arr => deleted ++ [arr]
      | None => deleted
      end) deleted) [].

(** The texts handed to [addPrefixCode] along a call sequence, in order. *)
Definition prefixSources (calls : list call) : list string :=
  flat_map (fun c => match c with CallAddPrefixCode source => [source] | _ => [] end)
    calls.

(** The buffers handed to [addArgument] along a call sequence, in order. *)
Definition argumentBuffers (calls : list call) : list CUdeviceptr :=
  flat_map (fun c => match c with CallAddArgument data _ => [data] | _ => [] end) calls.

(** The type names handed to [addArgument] along a call sequence, in order. *)
Definition argumentTypeNames (calls : list call) : list string :=
  flat_map (fun c => match c with CallAddArgument _ type => [type] | _ => [] end) calls.

(** The largest bond count among [terms], starting from [start]. *)
Definition largestBondCount (start : nat) (terms : list (list (list Z))) : nat :=
  foldl Nat.max start (length <$> terms).

(** The read of [atomIndices<force>_<i>] emitted on line 133 for a block. *)
Definition atomIndicesRead (force i : nat) (arr : CudaArray) : string :=
  "    " +:+ indexTypeOf (getElementSize arr / 4) +:+ " atoms" +:+ dec i
  +:+ " = atomIndices" +:+ dec force +:+ "_" +:+ dec i +:+ "[index];" +:+ nl.

(** The registry [initialize] leaves when it returns after compiling. *)
Definition sealed (u : CudaBondedUtilities) (k : CUfunction) : CudaBondedUtilities :=
  mkUtilities (numForceBuffers u) (maxBonds u) (hasInitializedKernels u)
    [] [] (forceGroup u) (arguments u) (argTypes u) (prefixCode u)
    (atomIndices u) (Some k).

(** The parameter line 101 declares for block [i] of term [force]. *)
Definition indexParameter (force i : nat) (arr : CudaArray) : string * string :=
  ("const " +:+ indexTypeOf (getElementSize arr / 4) +:+ "* __restrict__",
   "atomIndices" +:+ dec force +:+ "_" +:+ dec i).

(** The parameter line 105 declares for argument [i] of type [type]. *)
Definition argumentParameter (i : nat) (type : string) : string * string :=
  (type +:+ "*", "customArg" +:+ dec (i + 1)).

(** * Properties *)

(** ** Counted loops *)

Lemma for_loop_0 {S : Type} (body : nat -> S -> S) (s : S) :
  for_loop 0 body s = s.
Proof. reflexivity. Qed.

Lemma for_loop_S {S : Type} (n : nat) (body : nat -> S -> S) (s : S) :
  for_loop (Datatypes.S n) body s = body n (for_loop n body s).
Proof.
  unfold for_loop. rewrite seq_S, foldl_app. reflexivity.
Qed.

(** The invariant rule of a counted loop. *)
Lemma for_loop_ind {S : Type} (P : nat -> S -> Prop) (n : nat)
      (body : nat -> S -> S) (s : S) :
  P 0 s ->
  (forall i acc, i < n -> P i acc -> P (Datatypes.S i) (body i acc)) ->
  P n (for_loop n body s).
Proof.
  intros H0 Hstep.
  assert (forall m, m <= n -> P m (for_loop m body s)) as Hall.
  { induction m as [|m IH]; intros Hm.
    - exact H0.
    - rewrite for_loop_S. apply Hstep; [lia | apply IH; lia]. }
  apply Hall. lia.
Qed.

(** ** The packer *)

Section PackingFacts.

Variable sizeofUnsignedInt : nat.

Lemma chooseWidth_max numAtoms startAtom :
  chooseWidth numAtoms startAtom = Nat.max (numAtoms - startAtom) 4.
Proof.
  unfold chooseWidth.
  destruct (Nat.eqb_spec (Nat.max (numAtoms - startAtom) 4) 3); [lia | reflexivity].
Qed.

Lemma position_split (width bond atom : nat) :
  atom < width ->
  (bond * width + atom) / width = bond /\ (bond * width + atom) mod width = atom.
Proof.
  intros Hlt. split.
  - rewrite Nat.div_add_l by lia. rewrite Nat.div_small by lia. lia.
  - rewrite Nat.add_comm, Nat.Div0.mod_add. apply Nat.mod_small. lia.
Qed.

(** The two nested loops write the positions of the vector in increasing
    order; after them every position holds the lane read for it. *)
Lemma fillIndexVec_spec atoms numBonds width startAtom :
  let indexVec := fillIndexVec atoms numBonds width startAtom in
  length indexVec = width * numBonds /\
  forall p, p < numBonds * width ->
            indexVec !! p = Some (expectedCell atoms width startAtom p).
Proof.
  unfold fillIndexVec.
  apply (for_loop_ind (fun bond (vec : list cell) =>
           length vec = width * numBonds /\
           forall p, p < bond * width ->
                     vec !! p = Some (expectedCell atoms width startAtom p))).
  - split; [apply length_replicate | intros p Hp; lia].
  - intros bond vec Hbond [Hlen Hvec].
    assert (length (for_loop width (fun atom indexVec =>
               <[bond * width + atom := readAtom atoms bond (startAtom + atom)]> indexVec)
               vec) = width * numBonds /\
            forall p, p < bond * width + width ->
              (for_loop width (fun atom indexVec =>
                 <[bond * width + atom := readAtom atoms bond (startAtom + atom)]> indexVec)
                 vec) !! p = Some (expectedCell atoms width startAtom p)) as Hinner.
    { apply (for_loop_ind (fun atom (v : list cell) =>
               length v = width * numBonds /\
               forall p, p < bond * width + atom ->
                         v !! p = Some (expectedCell atoms width startAtom p))).
      - split; [exact Hlen | intros p Hp; apply Hvec; lia].
      - intros atom v Hatom [Hl Hv]. split.
        + rewrite length_insert. exact Hl.
        + intros p Hp.
          destruct (decide (p = bond * width + atom)) as [->|Hne].
          * rewrite list_lookup_insert_eq by nia.
            unfold expectedCell.
            destruct (position_split width bond atom Hatom) as [Ediv Emod].
            rewrite Ediv, Emod. reflexivity.
          * rewrite list_lookup_insert_ne by lia. apply Hv. lia. }
    destruct Hinner as [Hl Hv]. split; [exact Hl |].
    intros p Hp. apply Hv. lia.
Qed.

Lemma fillIndexVec_lookup atoms numBonds width startAtom bond atom :
  bond < numBonds -> atom < width ->
  fillIndexVec atoms numBonds width startAtom !! (bond * width + atom)
  = Some (readAtom atoms bond (startAtom + atom)).
Proof.
  intros Hb Ha.
  destruct (fillIndexVec_spec atoms numBonds width startAtom) as [_ Hv].
  rewrite Hv by nia. unfold expectedCell.
  destruct (position_split width bond atom Ha) as [Ediv Emod].
  rewrite Ediv, Emod. reflexivity.
Qed.

Lemma packLoop_done atoms numBonds numAtoms startAtom blocks :
  numAtoms <= startAtom ->
  packLoop sizeofUnsignedInt atoms numBonds numAtoms startAtom blocks = blocks.
Proof.
  intros Hge. rewrite packLoop_equation_1.
  destruct (lt_dec startAtom numAtoms) as [Hlt|Hnlt]; [lia | reflexivity].
Qed.

(** The loop runs its body once: the width it takes reaches the end of
    the tuple. *)
Lemma packLoop_once atoms numBonds numAtoms startAtom blocks :
  startAtom < numAtoms ->
  packLoop sizeofUnsignedInt atoms numBonds numAtoms startAtom blocks
  = blocks ++ [blockAt sizeofUnsignedInt atoms numBonds numAtoms startAtom].
Proof.
  intros Hlt. rewrite packLoop_equation_1.
  destruct (lt_dec startAtom numAtoms) as [Hlt'|Hge]; [| lia].
  cbn. rewrite packLoop_done; [reflexivity |].
  rewrite chooseWidth_max. lia.
Qed.

End PackingFacts.

(** C3 (the code departs from the claim).  Lane width at offset [o]: the
    claim has 4, or [A - o] on a final block with [A - o < 4] and
    [A - o <> 3].  The code takes the maximum of [A - o] and 4 (so 3 is
    indeed never chosen): for a two-atom term it chooses 4 where the claim
    has 2, and for a five-atom term it chooses 5 where the claim has 4. *)
Theorem chooseWidth_departs_from_described_width :
  chooseWidth 2 0 = 4 /\ describedWidth 2 0 = 2 /\
  chooseWidth 5 0 = 5 /\ describedWidth 5 0 = 4 /\
  forall numAtoms startAtom,
    chooseWidth numAtoms startAtom = Nat.max (numAtoms - startAtom) 4 /\
    chooseWidth numAtoms startAtom <> 3.
Proof.
  repeat split; try reflexivity.
  - apply chooseWidth_max.
  - rewrite chooseWidth_max. lia.
Qed.

(** C4 (the code departs from the claim).  Packing a term of arity 5 with
    one bond record: the claim has ceil(5/4) = 2 blocks of width 1 or 4; the
    code builds a single block of 5 = 5 * 1 cells. *)
Theorem packTerm_arity5_single_block :
  let atoms := [[10; 11; 12; 13; 14]%Z] in
  describedBlockCount 5 = 2 /\
  length (packTerm 4 atoms []) = 1 /\
  getSize <$> packTerm 4 atoms [] = [5] /\
  chooseWidth 5 0 = 5.
Proof. repeat split; vm_compute; reflexivity. Qed.

(** C5 (the code departs from the claim).  Packing a term of arity 1 (and
    1 mod 4 is not 3) with the single bond record [[7]]: the block is four
    lanes wide, and lanes 1, 2 and 3 are read past the end of the record. *)
Theorem packTerm_arity1_reads_past_record :
  1 mod 4 <> 3 /\
  contents <$> packTerm 4 [[7%Z]] []
  = [[Value 7; OutOfBounds; OutOfBounds; OutOfBounds]] /\
  readAtom [[7%Z]] 0 (0 + 1) = OutOfBounds.
Proof. repeat split; try (vm_compute; reflexivity). vm_compute. discriminate. Qed.

(** C6.  For a term of arity [A >= 1], every bond record [b] and every slot
    [k < A]: among the blocks packing pushes there is one, built at some
    offset with some width, that covers slot [k] and holds the atom index
    [bondRecords[b][k]] at position [b * width + (k - offset)] of its flat
    buffer.  Atom indices are non-negative [int] values. *)
Theorem packTerm_recovers_index (sizeofUnsignedInt : nat) (atoms : list (list Z))
        (blocks : list CudaArray) (b k : nat) (record : list Z) (v : Z) :
  1 <= length (default [] (atoms !! 0)) ->
  atoms !! b = Some record ->
  k < length (default [] (atoms !! 0)) ->
  record !! k = Some v ->
  (0 <= v < 2 ^ 31)%Z ->
  exists (i offset width : nat) (arr : CudaArray),
    packTerm sizeofUnsignedInt atoms blocks !! i = Some arr /\
    length blocks <= i /\
    arr = createAndUpload sizeofUnsignedInt
            (fillIndexVec atoms (length atoms) width offset) "bondedIndices" /\
    getSize arr = width * length atoms /\
    offset <= k < offset + width /\
    contents arr !! (b * width + (k - offset)) = Some (Value v).
Proof.
  intros HA Hb Hk Hv Hrange.
  exists (length blocks), 0, (chooseWidth (length (default [] (atoms !! 0))) 0).
  eexists. unfold packTerm.
  rewrite packLoop_once by lia.
  split; [| split; [| split; [| split; [| split]]]].
  - rewrite lookup_app_r by lia. rewrite Nat.sub_diag. reflexivity.
  - lia.
  - reflexivity.
  - cbn. apply fillIndexVec_spec.
  - rewrite chooseWidth_max. lia.
  - cbn. rewrite Nat.sub_0_r.
    rewrite fillIndexVec_lookup.
    + unfold readAtom. cbn. rewrite Hb, Hv. f_equal. f_equal.
      unfold to_unsigned, UINT_MODULUS. apply Z.mod_small. lia.
    + apply lookup_lt_Some in Hb. exact Hb.
    + rewrite chooseWidth_max. lia.
Qed.

Lemma packTerm_recovers_index_witness :
  exists (i offset width : nat) (arr : CudaArray),
    packTerm 4 [[3; 8]%Z; [8; 5]%Z] [] !! i = Some arr /\
    length (@nil CudaArray) <= i /\
    arr = createAndUpload 4
            (fillIndexVec [[3; 8]%Z; [8; 5]%Z] 2 width offset) "bondedIndices" /\
    getSize arr = width * 2 /\
    offset <= 1 < offset + width /\
    contents arr !! (1 * width + (1 - offset)) = Some (Value 5).
Proof.
  apply (packTerm_recovers_index 4 [[3; 8]%Z; [8; 5]%Z] [] 1 1 [8; 5]%Z 5%Z).
  - simpl. lia.
  - reflexivity.
  - simpl. lia.
  - reflexivity.
  - lia.
Defined.

(** C9.  [addInteraction] with no bond records returns the registry as it
    was; with at least one bond record it appends one term (the bond
    records, the source snippet and the group) and touches nothing else. *)
Theorem addInteraction_empty_or_append (u : CudaBondedUtilities)
        (source : string) (group : Z) :
  addInteraction u [] source group = u /\
  forall (record : list Z) (rest : list (list Z)),
    let atoms := record :: rest in
    let u' := addInteraction u atoms source group in
    forceAtoms u' = forceAtoms u ++ [atoms] /\
    forceSource u' = forceSource u ++ [source] /\
    forceGroup u' = forceGroup u ++ [group] /\
    arguments u' = arguments u /\ argTypes u' = argTypes u /\
    prefixCode u' = prefixCode u /\ atomIndices u' = atomIndices u /\
    kernel u' = kernel u /\ maxBonds u' = maxBonds u /\
    numForceBuffers u' = numForceBuffers u /\
    hasInitializedKernels u' = hasInitializedKernels u.
Proof.
  split; [reflexivity |].
  intros record rest atoms u'. subst atoms u'. unfold addInteraction. cbn.
  repeat split; reflexivity.
Qed.

(** ** The build *)

Lemma set_maxBonds_twice (m m' : nat) (u : CudaBondedUtilities) :
  set_maxBonds m' (set_maxBonds m u) = set_maxBonds m' u.
Proof. reflexivity. Qed.

Lemma set_maxBonds_same (u : CudaBondedUtilities) : set_maxBonds (maxBonds u) u = u.
Proof. destruct u; reflexivity. Qed.

(** [createForceSource] changes no member but [maxBonds]. *)
Lemma createForceSource_registry u forceIndex numBonds numAtoms group computeForce :
  (createForceSource u forceIndex numBonds numAtoms group computeForce).2
  = set_maxBonds (Nat.max (maxBonds u) numBonds) u.
Proof.
  unfold createForceSource.
  destruct (for_loop _ _ _) as [s n]. reflexivity.
Qed.

(** Neither does the synthesis of the whole kernel. *)
Lemma kernelSource_registry u :
  exists m, (kernelSource u).2 = set_maxBonds m u.
Proof.
  unfold kernelSource.
  match goal with
  | |- context [for_loop ?n ?body ?init] =>
      assert (exists m, (for_loop n body init).2 = set_maxBonds m u) as Hloop
  end.
  { apply (for_loop_ind (fun _ (acc : string * CudaBondedUtilities) =>
             exists m, acc.2 = set_maxBonds m u)).
    - exists (maxBonds u). cbn. symmetry. apply set_maxBonds_same.
    - intros force [s u1] _ [m Hm]. cbn in Hm. subst u1.
      destruct (createForceSource _ _ _ _ _ _) as [text u2] eqn:E.
      apply (f_equal snd) in E. rewrite createForceSource_registry in E.
      cbn in E. subst u2. eexists. cbn. reflexivity. }
  destruct Hloop as [m Hm].
  destruct (for_loop _ _ _) as [s u1]. cbn in Hm. subst u1.
  exists m. reflexivity.
Qed.

Section BuildFacts.

Variable sizeofUnsignedInt : nat.
Variable context : CudaContext.


(** Every term of the registry gets its blocks pushed onto its entry of
    [atomIndices], after the resize to the number of terms. *)
Lemma buildAtomIndices_spec (terms : list (list (list Z)))
      (previous : list (list CudaArray)) :
  length (buildAtomIndices sizeofUnsignedInt terms previous) = length terms /\
  forall i atoms, terms !! i = Some atoms ->
    buildAtomIndices sizeofUnsignedInt terms previous !! i
    = Some (packTerm sizeofUnsignedInt atoms (default [] (resize (length terms) [] previous !! i))).
Proof.
  unfold buildAtomIndices.
  assert (forall n, n <= length terms ->
    let r := for_loop n (fun i atomIndices =>
               <[i := packTerm sizeofUnsignedInt (default [] (terms !! i))
                        (default [] (atomIndices !! i))]> atomIndices)
               (resize (length terms) [] previous) in
    length r = length terms /\
    (forall i atoms, i < n -> terms !! i = Some atoms ->
       r !! i = Some (packTerm sizeofUnsignedInt atoms
                        (default [] (resize (length terms) [] previous !! i)))) /\
    (forall i, n <= i -> r !! i = resize (length terms) [] previous !! i)) as Hinv.
  { induction n as [|n IH]; intros Hn r; subst r.
    - rewrite for_loop_0. split; [apply length_resize |].
      split; [intros; lia | reflexivity].
    - rewrite for_loop_S.
      destruct (IH ltac:(lia)) as (Hlen & Hdone & Hrest).
      split; [rewrite length_insert; exact Hlen |]. split.
      + intros i atoms Hi Hat.
        destruct (decide (i = n)) as [->|Hne].
        * rewrite list_lookup_insert_eq by lia.
          rewrite Hat, Hrest by lia. reflexivity.
        * rewrite list_lookup_insert_ne by lia. apply Hdone; [lia | exact Hat].
      + intros i Hi. rewrite list_lookup_insert_ne by lia. apply Hrest. lia. }
  destruct (Hinv (length terms) ltac:(lia)) as (Hlen & Hdone & _).
  split; [exact Hlen |].
  intros i atoms Hat. apply Hdone; [| exact Hat].
  apply lookup_lt_Some in Hat. exact Hat.
Qed.

Lemma initialize_arguments u :
  arguments (initialize sizeofUnsignedInt context u).2 = arguments u /\
  argTypes (initialize sizeofUnsignedInt context u).2 = argTypes u.
Proof.
  unfold initialize.
  destruct (Nat.eqb (length (forceAtoms u)) 0); [split; reflexivity |].
  destruct (kernelSource_registry (packAll sizeofUnsignedInt u)) as [m Hm].
  destruct (kernelSource (packAll sizeofUnsignedInt u)) as [s u1]. cbn in Hm. subst u1.
  destruct (createModule context s _) as [module|]; [| split; reflexivity].
  destruct (getKernel context module _); split; reflexivity.
Qed.

Lemma perform_arguments u c :
  length (arguments (perform sizeofUnsignedInt context u c))
  = length (arguments u) + (if isAddArgument c then 1 else 0).
Proof.
  destruct c; cbn.
  - unfold addInteraction. destruct (Nat.ltb 0 (length atoms)); cbn; lia.
  - rewrite length_app. cbn. lia.
  - lia.
  - destruct (initialize_arguments u) as [-> _]. lia.
  - lia.
Qed.

Lemma performAll_arguments calls :
  length (arguments (performAll sizeofUnsignedInt context calls)) = argumentCalls calls.
Proof.
  unfold performAll, argumentCalls.
  induction calls as [|c calls IH] using rev_ind.
  - reflexivity.
  - rewrite foldl_app. cbn. rewrite perform_arguments, IH.
    rewrite List.filter_app, length_app. cbn.
    destruct (isAddArgument c); cbn; lia.
Qed.

End BuildFacts.

(** C8.  [initialize] on a registry without terms returns it unchanged.  On
    a registry with at least one term, when the context compiles the
    synthesized text and resolves the kernel, [initialize] returns with the
    atom tuples and the source snippets cleared, the packed index blocks of
    every term in [atomIndices], the arguments and their types as they were
    and the kernel handle stored. *)
Theorem initialize_effect (sizeofUnsignedInt : nat) (context : CudaContext)
        (u : CudaBondedUtilities) :
  (forceAtoms u = [] -> initialize sizeofUnsignedInt context u = (Returned, u)) /\
  (forceAtoms u <> [] ->
   forall (module : CUmodule) (k : CUfunction),
     createModule context (kernelSource (packAll sizeofUnsignedInt u)).1
       ({[ "PADDED_NUM_ATOMS" := dec (getPaddedNumAtoms context) ]} : gmap string string)
     = Some module ->
     getKernel context module "computeBondedForces" = Some k ->
     let u' := (initialize sizeofUnsignedInt context u).2 in
     (initialize sizeofUnsignedInt context u).1 = Returned /\
     forceAtoms u' = [] /\ forceSource u' = [] /\
     atomIndices u'
     = buildAtomIndices sizeofUnsignedInt (forceAtoms u) (atomIndices u) /\
     length (atomIndices u') = length (forceAtoms u) /\
     (forall i atoms, forceAtoms u !! i = Some atoms ->
        exists previous,
          atomIndices u' !! i = Some (packTerm sizeofUnsignedInt atoms previous)) /\
     arguments u' = arguments u /\ argTypes u' = argTypes u /\
     forceGroup u' = forceGroup u /\ prefixCode u' = prefixCode u /\
     kernel u' = Some k).
Proof.
  split.
  - intros Hempty. unfold initialize. rewrite Hempty. reflexivity.
  - intros Hterms module k Hmodule Hkernel u'. subst u'.
    unfold initialize.
    destruct (Nat.eqb_spec (length (forceAtoms u)) 0) as [Hzero|_].
    { destruct (forceAtoms u); [congruence | discriminate]. }
    destruct (kernelSource_registry (packAll sizeofUnsignedInt u)) as [m Hm].
    destruct (kernelSource (packAll sizeofUnsignedInt u)) as [s u1].
    cbn in Hm, Hmodule. subst u1. rewrite Hmodule, Hkernel. cbn.
    destruct (buildAtomIndices_spec sizeofUnsignedInt (forceAtoms u) (atomIndices u))
      as [Hlen Hblocks].
    repeat split; try reflexivity.
    + exact Hlen.
    + intros i atoms Hat. eexists. apply Hblocks. exact Hat.
Qed.

Lemma initialize_effect_witness :
  let context := mkContext 32 (fun _ _ => Some 1%N) (fun _ _ => Some 2%N) in
  let u := addInteraction newUtilities [[0; 1]%Z; [1; 2]%Z] "F" 0%Z in
  initialize 4 context newUtilities = (Returned, newUtilities) /\
  (initialize 4 context u).1 = Returned /\
  forceAtoms (initialize 4 context u).2 = [] /\
  forceSource (initialize 4 context u).2 = [] /\
  kernel (initialize 4 context u).2 = Some 2%N.
Proof.
  intros context u. split.
  - apply (initialize_effect 4 context newUtilities). reflexivity.
  - assert (forceAtoms u <> []) as Hterms by discriminate.
    destruct (initialize_effect 4 context u) as [_ Hbuilt].
    destruct (Hbuilt Hterms 1%N 2%N eq_refl eq_refl)
      as (Hret & Hatoms & Hsource & _ & _ & _ & _ & _ & _ & _ & Hkernel).
    repeat split; assumption.
Defined.

(** The rendering of integers is the decimal one. *)
Example intToString_decimal :
  intToString 0 = "0" /\ intToString 7 = "7" /\ intToString 10 = "10" /\
  intToString 2048 = "2048" /\ intToString (-15) = "-15".
Proof. repeat split; reflexivity. Qed.

(** C10.  After any sequence of calls, the next [addArgument] appends the
    buffer and the type name and returns ["customArg"] followed by the
    decimal rendering of [N], where [N] is one more than the number of
    [addArgument] calls made before, which is the number of arguments after
    the insertion. *)
Theorem addArgument_names_by_count (sizeofUnsignedInt : nat) (context : CudaContext)
        (calls : list call) (data : CUdeviceptr) (type : string) :
  let u := performAll sizeofUnsignedInt context calls in
  let N := S (argumentCalls calls) in
  (addArgument u data type).1 = "customArg" +:+ intToString (Z.of_nat N) /\
  arguments (addArgument u data type).2 = arguments u ++ [data] /\
  argTypes (addArgument u data type).2 = argTypes u ++ [type] /\
  length (arguments (addArgument u data type).2) = N.
Proof.
  intros u N. subst u N. unfold addArgument. cbn.
  rewrite length_app, performAll_arguments. cbn.
  replace (argumentCalls calls + 1) with (S (argumentCalls calls)) by lia.
  repeat split; reflexivity.
Qed.

(** C2 (the code departs from the claim).  In the registry left by a
    successful [initialize] of one term (kernel handle stored, one bond
    recorded as the maximum), [computeInteractions] hands no launch to the
    context and returns the registry as it was; so it does in every
    registry and for every bitmask. *)
Theorem computeInteractions_launches_nothing :
  let context := mkContext 32 (fun _ _ => Some 1%N) (fun _ _ => Some 2%N) in
  let u := performAll 4 context [CallAddInteraction [[0; 1]%Z] "F" 0%Z; CallInitialize] in
  kernel u = Some 2%N /\ maxBonds u = 1 /\
  computeInteractions u 1%Z = (u, []) /\
  forall (u' : CudaBondedUtilities) (groups : Z),
    computeInteractions u' groups = (u', []).
Proof. vm_compute. repeat split; reflexivity. Qed.

(** ** The synthesized text *)

Local Arguments String.append : simpl nomatch.

Lemma string_app_assoc (a b c : string) : (a +:+ b) +:+ c = a +:+ b +:+ c.
Proof.
  induction a as [|ch a IH]; [reflexivity |].
  simpl. rewrite IH. reflexivity.
Qed.

Lemma string_app_nil_r (a : string) : a +:+ EmptyString = a.
Proof.
  induction a as [|ch a IH]; [reflexivity |].
  simpl. rewrite IH. reflexivity.
Qed.

(** Both sides of an equation between streams brought to one shape. *)
Ltac stream_normalize :=
  repeat rewrite string_app_assoc; simpl;
  repeat rewrite string_app_nil_r.

Lemma concatStrings_app (l k : list string) :
  concatStrings (l ++ k) = concatStrings l +:+ concatStrings k.
Proof.
  induction l as [|x l IH]; [reflexivity |].
  cbn [concatStrings foldr app]. fold (concatStrings (l ++ k)) (concatStrings l).
  rewrite IH, string_app_assoc. reflexivity.
Qed.

Lemma contains_refl (s : string) : contains s s.
Proof. exists EmptyString, EmptyString. rewrite string_app_nil_r. reflexivity. Qed.

Lemma contains_app_l (needle a b : string) :
  contains needle a -> contains needle (a +:+ b).
Proof.
  intros (x & y & ->). exists x, (y +:+ b).
  rewrite !string_app_assoc. reflexivity.
Qed.

Lemma contains_app_r (needle a b : string) :
  contains needle b -> contains needle (a +:+ b).
Proof.
  intros (x & y & ->). exists (a +:+ x), y.
  rewrite !string_app_assoc. reflexivity.
Qed.

Lemma contains_trans (a b c : string) :
  contains a b -> contains b c -> contains a c.
Proof.
  intros Hab (x & y & ->). apply contains_app_r, contains_app_l. exact Hab.
Qed.

Lemma contains_concatStrings (x : string) (l : list string) :
  x ∈ l -> contains x (concatStrings l).
Proof.
  induction 1 as [x l|x y l _ IH]; cbn [concatStrings foldr].
  - apply contains_app_l, contains_refl.
  - apply contains_app_r. exact IH.
Qed.

(** A loop whose body appends text that depends on the counter only. *)
Lemma for_loop_append (n : nat) (body : nat -> string -> string) (g : nat -> string)
      (s : string) :
  (forall i s, body i s = s +:+ g i) ->
  for_loop n body s = s +:+ concatStrings (g <$> seq 0 n).
Proof.
  intros Hbody. induction n as [|n IH].
  - rewrite for_loop_0. cbn. symmetry. apply string_app_nil_r.
  - rewrite for_loop_S, Hbody, IH, seq_S, fmap_app, concatStrings_app.
    cbn. rewrite string_app_nil_r, string_app_assoc. reflexivity.
Qed.

(** Two loops of the same length whose bodies preserve a relation between
    their states. *)
Lemma for_loop_rel {S T : Type} (R : S -> T -> Prop) (n : nat)
      (body1 : nat -> S -> S) (body2 : nat -> T -> T) (s : S) (t : T) :
  R s t ->
  (forall i a b, i < n -> R a b -> R (body1 i a) (body2 i b)) ->
  R (for_loop n body1 s) (for_loop n body2 t).
Proof.
  intros H0 Hstep.
  assert (forall m, m <= n -> R (for_loop m body1 s) (for_loop m body2 t)) as Hall.
  { induction m as [|m IH]; intros Hm.
    - exact H0.
    - rewrite !for_loop_S. apply Hstep; [lia | apply IH; lia]. }
  apply Hall. lia.
Qed.

(** *** The signature *)

Lemma moreParameters_snoc l p :
  moreParameters (l ++ [p]) = moreParameters l +:+ ", " +:+ renderParameter p.
Proof.
  unfold moreParameters. rewrite fmap_app, concatStrings_app. cbn.
  rewrite string_app_nil_r. reflexivity.
Qed.

Lemma moreParameters_app l k :
  moreParameters (l ++ k) = moreParameters l +:+ moreParameters k.
Proof. unfold moreParameters. rewrite fmap_app. apply concatStrings_app. Qed.

Lemma renderParameters_fixed (l : list (string * string)) :
  renderParameters (fixedParameters ++ l)
  = "long* __restrict__ forceBuffer, real* __restrict__ energyBuffer, const real4* __restrict__ posq, int groups"
    +:+ moreParameters l.
Proof.
  unfold moreParameters, renderParameter. cbn. stream_normalize. reflexivity.
Qed.

(** The signature the code emits is the rendering of [kernelParameters]. *)
Lemma kernelSignature_parameters (u : CudaBondedUtilities) (s : string) :
  kernelSignature u s
  = s +:+ "extern " +:+ dquote +:+ "C" +:+ dquote
      +:+ " __global__ void computeBondedForces("
      +:+ renderParameters (kernelParameters u) +:+ ") {" +:+ nl.
Proof.
  unfold kernelSignature, kernelParameters. cbv zeta.
  rewrite renderParameters_fixed, moreParameters_app.
  set (s0 := s +:+ "extern " +:+ dquote +:+ "C" +:+ dquote
      +:+ " __global__ void computeBondedForces(long* __restrict__ forceBuffer, real* __restrict__ energyBuffer, const real4* __restrict__ posq, int groups").
  assert (for_loop (length (forceAtoms u)) (fun force s1 =>
            for_loop (length (default [] (atomIndices u !! force))) (fun i s2 =>
              match default [] (atomIndices u !! force) !! i with
              | Some arr =>
                  s2 +:+ ", const " +:+ indexTypeOf (getElementSize arr / 4)
                    +:+ "* __restrict__ atomIndices" +:+ dec force +:+ "_" +:+ dec i
              | None => s2
              end) s1) s0
          = s0 +:+ moreParameters (indexParameters u)) as Hindex.
  { unfold indexParameters.
    apply (for_loop_rel (fun (a : string) (b : list (string * string)) =>
             a = s0 +:+ moreParameters b)).
    - cbn. symmetry. apply string_app_nil_r.
    - intros force a b _ Hab. cbv zeta.
      apply (for_loop_rel (fun (a : string) (b : list (string * string)) =>
               a = s0 +:+ moreParameters b)); [exact Hab |].
      intros i a' b' _ ->.
      destruct (default [] (atomIndices u !! force) !! i) as [arr|]; [| reflexivity].
      rewrite moreParameters_snoc. unfold renderParameter. cbn [fst snd].
      stream_normalize. reflexivity. }
  rewrite Hindex. clear Hindex.
  assert (forall s1, for_loop (length (arguments u)) (fun i s2 =>
            s2 +:+ ", " +:+ default EmptyString (argTypes u !! i)
               +:+ "* customArg" +:+ dec (i + 1)) s1
          = s1 +:+ moreParameters (argumentParameters u)) as Hargs.
  { intros s1. unfold argumentParameters.
    apply (for_loop_rel (fun (a : string) (b : list (string * string)) =>
             a = s1 +:+ moreParameters b)).
    - cbn. symmetry. apply string_app_nil_r.
    - intros i a b _ ->.
      rewrite moreParameters_snoc. unfold renderParameter. cbn [fst snd].
      stream_normalize. reflexivity. }
  rewrite Hargs. clear Hargs. subst s0.
  stream_normalize. reflexivity.
Qed.

(** *** The body of a term *)

Lemma renderDeclarations_app l k :
  renderDeclarations (l ++ k) = renderDeclarations l +:+ renderDeclarations k.
Proof. unfold renderDeclarations. rewrite fmap_app. apply concatStrings_app. Qed.

(** The text one block contributes is the rendering of its declarations. *)
Lemma unpackBlock_declarations forceIndex i arr s startAtom :
  unpackBlock forceIndex i arr (s, startAtom)
  = (s +:+ renderDeclarations (blockDeclarations forceIndex i startAtom arr),
     startAtom + getElementSize arr / 4).
Proof.
  unfold unpackBlock, blockDeclarations. cbv zeta.
  set (w := getElementSize arr / 4).
  f_equal. rewrite renderDeclarations_app.
  match goal with
  | |- for_loop w ?body ?s1 = _ =>
      assert (for_loop w body s1
              = s1 +:+ renderDeclarations
                  (for_loop w (fun j acc => acc ++ laneDeclarations i startAtom w j) []))
        as Hlanes
  end.
  { apply (for_loop_rel (fun (a : string) (b : list declaration) =>
             a = _ +:+ renderDeclarations b)).
    - cbn. symmetry. apply string_app_nil_r.
    - intros j a b _ ->. rewrite renderDeclarations_app.
      unfold laneDeclarations, renderDeclarations, renderDeclaration.
      cbn [fmap list_fmap concatStrings foldr declType declName declInit].
      stream_normalize. reflexivity. }
  rewrite Hlanes. clear Hlanes.
  unfold renderDeclarations at 2. unfold renderDeclaration.
  cbn [fmap list_fmap concatStrings foldr declType declName declInit].
  stream_normalize. reflexivity.
Qed.

(** The text [createForceSource] returns, piece by piece. *)
Lemma createForceSource_text u forceIndex numBonds numAtoms group computeForce :
  (createForceSource u forceIndex numBonds numAtoms group computeForce).1
  = loopHeader numBonds group
    +:+ renderDeclarations (termDeclarations u forceIndex)
    +:+ computeForce +:+ nl
    +:+ concatStrings ((fun i => scatterAtom i EmptyString) <$> seq 0 numAtoms)
    +:+ "}" +:+ nl.
Proof.
  unfold createForceSource, termDeclarations. cbv zeta.
  change (atomIndices (set_maxBonds (Nat.max (maxBonds u) numBonds) u))
    with (atomIndices u).
  set (blocks := default [] (atomIndices u !! forceIndex)).
  match goal with
  | |- context [for_loop (length blocks) ?body (?s0, 0)] =>
      set (start := s0); set (unpack := body)
  end.
  assert ((for_loop (length blocks) unpack (start, 0)).1
          = start +:+ renderDeclarations
              (for_loop (length blocks) (fun i acc =>
                 match blocks !! i with
                 | Some arr =>
                     (acc.1 ++ blockDeclarations forceIndex i acc.2 arr,
                      acc.2 + getElementSize arr / 4)
                 | None => acc
                 end) ([], 0)).1) as Hblocks.
  { apply (for_loop_rel (fun (a : string * nat) (b : list declaration * nat) =>
             a.1 = start +:+ renderDeclarations b.1 /\ a.2 = b.2) (length blocks)
             unpack _ (start, 0) ([], 0)).
    - split; [symmetry; apply string_app_nil_r | reflexivity].
    - intros i [a n] [b n'] _ [Ha Hn]. cbn [fst snd] in Ha, Hn. subst a n'.
      subst unpack. cbv beta.
      destruct (blocks !! i) as [arr|]; [| split; reflexivity].
      rewrite unpackBlock_declarations. cbn [fst snd].
      rewrite renderDeclarations_app, string_app_assoc. split; reflexivity. }
  destruct (for_loop (length blocks) unpack (start, 0)) as [s1 n1].
  cbn [fst] in Hblocks. subst s1. cbn [fst].
  rewrite (for_loop_append numAtoms scatterAtom (fun i => scatterAtom i EmptyString)).
  - subst start. unfold loopHeader. stream_normalize. reflexivity.
  - intros i s. unfold scatterAtom. stream_normalize. reflexivity.
Qed.

(** The documented read is the rendering of the [buffers] declaration. *)
Lemma bufferIndicesRead_declaration force arr :
  bufferIndicesRead force arr
  = renderDeclaration
      (mkDeclaration (indexTypeOf (getElementSize arr / 4)) "buffers"
         ("bufferIndices" +:+ dec force +:+ "[index]")).
Proof.
  unfold bufferIndicesRead, renderDeclaration. cbn [declType declName declInit].
  stream_normalize. reflexivity.
Qed.

(** Every block of a term contributes its [buffers] declaration. *)
Lemma termDeclarations_buffers u forceIndex i arr :
  default [] (atomIndices u !! forceIndex) !! i = Some arr ->
  mkDeclaration (indexTypeOf (getElementSize arr / 4)) "buffers"
    ("bufferIndices" +:+ dec forceIndex +:+ "[index]")
  ∈ termDeclarations u forceIndex.
Proof.
  unfold termDeclarations. cbv zeta.
  set (blocks := default [] (atomIndices u !! forceIndex)).
  intros Hblock.
  pose proof (lookup_lt_Some _ _ _ Hblock) as Hlt.
  revert i arr Hlt Hblock.
  apply (for_loop_ind (fun k (acc : list declaration * nat) =>
           forall i arr, i < k -> blocks !! i = Some arr ->
             mkDeclaration (indexTypeOf (getElementSize arr / 4)) "buffers"
               ("bufferIndices" +:+ dec forceIndex +:+ "[index]") ∈ acc.1)).
  - intros i arr Hi. lia.
  - intros k [acc n'] Hk IH i arr Hi Hblock.
    destruct (decide (i = k)) as [->|Hne].
    + rewrite Hblock. cbn [fst snd]. apply elem_of_app. right.
      unfold blockDeclarations. cbv zeta. apply elem_of_app. left.
      apply elem_of_cons. right. apply elem_of_cons. left. reflexivity.
    + assert (mkDeclaration (indexTypeOf (getElementSize arr / 4)) "buffers"
                ("bufferIndices" +:+ dec forceIndex +:+ "[index]") ∈ acc) as Hin
        by (apply (IH i arr); [lia | exact Hblock]).
      destruct (blocks !! k); [| exact Hin].
      cbn [fst snd]. apply elem_of_app. left. exact Hin.
Qed.

(** *** Names *)

Lemma termDeclarations_names u forceIndex :
  Forall (fun d => notBufferIndices (declName d)) (termDeclarations u forceIndex).
Proof.
  unfold termDeclarations. cbv zeta.
  set (blocks := default [] (atomIndices u !! forceIndex)).
  apply (for_loop_ind (fun _ (acc : list declaration * nat) =>
           Forall (fun d => notBufferIndices (declName d)) acc.1)).
  - constructor.
  - intros i [acc n] _ IH. destruct (blocks !! i) as [arr|]; [| exact IH].
    cbn [fst snd] in *. apply Forall_app. split; [exact IH |].
    unfold blockDeclarations. cbv zeta. apply Forall_app. split.
    + repeat constructor; cbn [declName]; intros rest H; simpl in H; discriminate.
    + apply (for_loop_ind (fun _ (lanes : list declaration) =>
               Forall (fun d => notBufferIndices (declName d)) lanes)).
      * constructor.
      * intros j lanes _ IHl. apply Forall_app. split; [exact IHl |].
        unfold laneDeclarations.
        repeat constructor; cbn [declName]; intros rest H; simpl in H; discriminate.
Qed.

Lemma declaredLocals_names u forceIndex :
  Forall notBufferIndices (declaredLocals u forceIndex).
Proof.
  unfold declaredLocals.
  constructor; [intros rest H; simpl in H; discriminate |].
  constructor; [intros rest H; simpl in H; discriminate |].
  apply Forall_fmap. apply termDeclarations_names.
Qed.

Lemma kernelParameters_names u :
  Forall (fun p => notBufferIndices p.2) (kernelParameters u).
Proof.
  unfold kernelParameters. apply Forall_app. split.
  { repeat constructor; cbn [snd]; intros rest H; simpl in H; discriminate. }
  apply Forall_app. split.
  - unfold indexParameters.
    apply (for_loop_ind (fun _ (acc : list (string * string)) =>
             Forall (fun p => notBufferIndices p.2) acc)); [constructor |].
    intros force acc _ IH. cbv zeta.
    apply (for_loop_ind (fun _ (acc : list (string * string)) =>
             Forall (fun p => notBufferIndices p.2) acc)); [exact IH |].
    intros i acc' _ IH'.
    destruct (default [] (atomIndices u !! force) !! i) as [arr|]; [| exact IH'].
    apply Forall_app. split; [exact IH' |].
    repeat constructor; cbn [snd]; intros rest H; simpl in H; discriminate.
  - unfold argumentParameters.
    apply (for_loop_ind (fun _ (acc : list (string * string)) =>
             Forall (fun p => notBufferIndices p.2) acc)); [constructor |].
    intros i acc _ IH. apply Forall_app. split; [exact IH |].
    repeat constructor; cbn [snd]; intros rest H; simpl in H; discriminate.
Qed.

(** *** The kernel text *)

(** The body of every term is part of the kernel text. *)
Lemma kernelSource_contains_body u force :
  force < length (forceAtoms u) ->
  contains (termBody u force) (kernelSource u).1.
Proof.
  intros Hforce. unfold kernelSource. cbv zeta.
  match goal with
  | |- context [for_loop (length (forceAtoms u)) ?body (?s0, u)] =>
      set (start := s0); set (emit := body)
  end.
  assert ((exists m, (for_loop (length (forceAtoms u)) emit (start, u)).2
                     = set_maxBonds m u) /\
          forall f, f < length (forceAtoms u) ->
            contains (termBody u f)
              (for_loop (length (forceAtoms u)) emit (start, u)).1) as [_ Hloop].
  { apply (for_loop_ind (fun k (acc : string * CudaBondedUtilities) =>
             (exists m, acc.2 = set_maxBonds m u) /\
             forall f, f < k -> contains (termBody u f) acc.1)).
    - split; [exists (maxBonds u); symmetry; apply set_maxBonds_same |].
      intros f Hf. lia.
    - intros k [s1 u1] Hk [[m Hm] IH]. cbn [fst snd] in Hm, IH. subst u1.
      subst emit. cbv beta iota.
      change (forceAtoms (set_maxBonds m u)) with (forceAtoms u).
      change (forceGroup (set_maxBonds m u)) with (forceGroup u).
      change (forceSource (set_maxBonds m u)) with (forceSource u).
      match goal with
      | |- context [createForceSource (set_maxBonds m u) k ?b ?a ?g ?c] =>
          pose proof (createForceSource_registry (set_maxBonds m u) k b a g c) as Hreg;
          assert ((createForceSource (set_maxBonds m u) k b a g c).1 = termBody u k)
            as Htext by (unfold termBody; rewrite !createForceSource_text; reflexivity);
          destruct (createForceSource (set_maxBonds m u) k b a g c) as [text u2]
      end.
      cbn [fst snd] in Hreg, Htext. subst text u2. cbn [fst snd]. split.
      + eexists. reflexivity.
      + intros f Hf. destruct (decide (f = k)) as [->|Hne].
        * apply contains_app_r, contains_refl.
        * apply contains_app_l, IH. lia. }
  destruct (for_loop (length (forceAtoms u)) emit (start, u)) as [s1 u1].
  cbn [fst] in *. apply contains_app_l, contains_app_l. apply Hloop. exact Hforce.
Qed.

(** C7.  In a build with at least one term, for every term [force] and
    every index block of it: the body emitted for the term reads
    [bufferIndices<force>[index]] (line 134), that body is part of the
    kernel text handed to the compiler, and neither the parameters the
    signature declares nor the locals the synthesizer declares carry a name
    beginning with [bufferIndices]; only caller-supplied text (a prefix
    fragment, an argument type, a snippet) could introduce it. *)
Theorem bufferIndices_read_but_undeclared (sizeofUnsignedInt : nat)
        (u : CudaBondedUtilities) (force i : nat) (blocks : list CudaArray)
        (arr : CudaArray) :
  force < length (forceAtoms u) ->
  atomIndices (packAll sizeofUnsignedInt u) !! force = Some blocks ->
  blocks !! i = Some arr ->
  let built := packAll sizeofUnsignedInt u in
  contains (bufferIndicesRead force arr) (termBody built force) /\
  contains (termBody built force) (kernelSource built).1 /\
  (("bufferIndices" +:+ dec force) ∉ (snd <$> kernelParameters built)) /\
  (("bufferIndices" +:+ dec force) ∉ declaredLocals built force).
Proof.
  intros Hforce Hblocks Hblock built.
  set (read := bufferIndicesRead force arr).
  assert (default [] (atomIndices built !! force) !! i = Some arr) as Hlookup
    by (subst built; rewrite Hblocks; exact Hblock).
  split; [| split; [| split]].
  - unfold termBody. rewrite createForceSource_text.
    apply contains_app_r, contains_app_l.
    unfold renderDeclarations. apply contains_concatStrings.
    subst read. rewrite bufferIndicesRead_declaration.
    apply list_elem_of_fmap. eexists. split; [reflexivity |].
    apply (termDeclarations_buffers built force i arr). exact Hlookup.
  - apply kernelSource_contains_body. exact Hforce.
  - intros Hin. apply list_elem_of_fmap in Hin as (p & Hname & Hp).
    pose proof (kernelParameters_names built) as Hall.
    rewrite Forall_forall in Hall. apply (Hall p Hp (dec force)). congruence.
  - intros Hin.
    pose proof (declaredLocals_names built force) as Hall.
    rewrite Forall_forall in Hall. apply (Hall _ Hin (dec force)). reflexivity.
Qed.

Lemma bufferIndices_read_but_undeclared_witness :
  let u := addInteraction newUtilities [[0; 1]%Z; [1; 2]%Z] "F" 0%Z in
  let built := packAll 4 u in
  let arr := blockAt 4 [[0; 1]%Z; [1; 2]%Z] 2 2 0 in
  contains (bufferIndicesRead 0 arr) (termBody built 0) /\
  contains (termBody built 0) (kernelSource built).1 /\
  (("bufferIndices" +:+ dec 0) ∉ (snd <$> kernelParameters built)) /\
  (("bufferIndices" +:+ dec 0) ∉ declaredLocals built 0).
Proof.
  intros u built arr.
  apply (bufferIndices_read_but_undeclared 4 u 0 0 [arr] arr).
  - simpl. lia.
  - reflexivity.
  - reflexivity.
Defined.

(** C1 (the code departs from the claim).  The claim has the components x,
    y and z of the force added to the planes at offsets 0,
    PADDED_NUM_ATOMS and 2*PADDED_NUM_ATOMS.  For every atom the three
    lines emitted add [force.x] to all three planes; in the body emitted
    for a one-atom term [force.y] and [force.z] appear nowhere. *)
Theorem createForceSource_scatters_x_three_times :
  (forall (i : nat) (s : string),
     scatterAtom i s
     = s +:+ "    atomicAdd(&forceBuffer[atom" +:+ dec (i + 1)
         +:+ "], (long) (force.x*0xFFFFFFFF));" +:+ nl
         +:+ "    atomicAdd(&forceBuffer[atom" +:+ dec (i + 1)
         +:+ "+PADDED_NUM_ATOMS], (long) (force.x*0xFFFFFFFF));" +:+ nl
         +:+ "    atomicAdd(&forceBuffer[atom" +:+ dec (i + 1)
         +:+ "+PADDED_NUM_ATOMS*2], (long) (force.x*0xFFFFFFFF));" +:+ nl) /\
  let u := packAll 4 (addInteraction newUtilities [[7%Z]] "F" 0%Z) in
  (createForceSource u 0 1 1 0%Z "F").1
  = "if ((groups&1) != 0)" +:+ nl
    +:+ "for (unsigned int index = blockIdx.x*blockDim.x+threadIdx.x; index < 1; index += blockDim.x*gridDim.x) {" +:+ nl
    +:+ "    unsigned int atoms0 = atomIndices0_0[index];" +:+ nl
    +:+ "    unsigned int buffers = bufferIndices0[index];" +:+ nl
    +:+ "    unsigned int atom1 = atoms0;" +:+ nl
    +:+ "    real4 pos1 = posq[atom1];" +:+ nl
    +:+ "F" +:+ nl
    +:+ "    atomicAdd(&forceBuffer[atom1], (long) (force.x*0xFFFFFFFF));" +:+ nl
    +:+ "    atomicAdd(&forceBuffer[atom1+PADDED_NUM_ATOMS], (long) (force.x*0xFFFFFFFF));" +:+ nl
    +:+ "    atomicAdd(&forceBuffer[atom1+PADDED_NUM_ATOMS*2], (long) (force.x*0xFFFFFFFF));" +:+ nl
    +:+ "}" +:+ nl.
Proof.
  split.
  - intros i s. unfold scatterAtom. stream_normalize. reflexivity.
  - vm_compute. reflexivity.
Qed.

(** * Further properties of the registry and the build *)

(** ** What [initialize] leaves *)

(** The synthesis raises [maxBonds] to the largest bond count. *)
Lemma kernelSource_maxBonds (u : CudaBondedUtilities) :
  (kernelSource u).2
  = set_maxBonds (largestBondCount (maxBonds u) (forceAtoms u)) u.
Proof.
  unfold kernelSource. cbv zeta.
  match goal with
  | |- context [for_loop (length (forceAtoms u)) ?body (?s0, u)] =>
      set (start := s0); set (emit := body)
  end.
  assert ((for_loop (length (forceAtoms u)) emit (start, u)).2
          = set_maxBonds
              (largestBondCount (maxBonds u)
                 (take (length (forceAtoms u)) (forceAtoms u))) u) as Hloop.
  { apply (for_loop_ind (fun k (acc : string * CudaBondedUtilities) =>
             acc.2 = set_maxBonds
                       (largestBondCount (maxBonds u) (take k (forceAtoms u))) u)).
    - cbn. symmetry. apply set_maxBonds_same.
    - intros k [s1 u1] Hk Hacc. cbn [snd] in Hacc. subst u1.
      subst emit. cbv beta iota.
      change (forceAtoms (set_maxBonds ?m u)) with (forceAtoms u).
      destruct (lookup_lt_is_Some_2 (forceAtoms u) k Hk) as [atoms Hatoms].
      match goal with
      | |- context [createForceSource ?v k ?b ?a ?g ?c] =>
          pose proof (createForceSource_registry v k b a g c) as Hreg;
          destruct (createForceSource v k b a g c) as [text u2]
      end.
      cbn [snd] in Hreg. subst u2. cbn [snd].
      rewrite (take_S_r _ _ _ Hatoms). unfold largestBondCount.
      rewrite fmap_app, foldl_app, Hatoms. reflexivity. }
  rewrite firstn_all in Hloop.
  destruct (for_loop (length (forceAtoms u)) emit (start, u)) as [s1 u1].
  exact Hloop.
Qed.

(** The three ways a call of [initialize] can end. *)
Lemma initialize_cases (sizeofUnsignedInt : nat) (context : CudaContext)
      (u : CudaBondedUtilities) :
  let packed :=
    set_maxBonds (largestBondCount (maxBonds u) (forceAtoms u))
      (packAll sizeofUnsignedInt u) in
  (forceAtoms u = [] /\ initialize sizeofUnsignedInt context u = (Returned, u)) \/
  (forceAtoms u <> [] /\ initialize sizeofUnsignedInt context u = (Threw, packed)) \/
  (forceAtoms u <> [] /\
   exists k, initialize sizeofUnsignedInt context u = (Returned, sealed packed k)).
Proof.
  intros packed. unfold initialize.
  destruct (Nat.eqb_spec (length (forceAtoms u)) 0) as [Hzero|Hpos].
  { left. split; [| reflexivity]. destruct (forceAtoms u); [reflexivity | discriminate]. }
  right.
  assert (forceAtoms u <> []) as Hterms by (intros E; rewrite E in Hpos; apply Hpos; reflexivity).
  pose proof (kernelSource_maxBonds (packAll sizeofUnsignedInt u)) as Hsrc.
  destruct (kernelSource (packAll sizeofUnsignedInt u)) as [s u1].
  cbn [snd] in Hsrc. subst u1.
  change (set_maxBonds _ (packAll sizeofUnsignedInt u)) with packed.
  destruct (createModule context s _) as [module|]; [| left; split; [exact Hterms | reflexivity]].
  destruct (getKernel context module _) as [k|]; [| left; split; [exact Hterms | reflexivity]].
  right. split; [exact Hterms |]. exists k. reflexivity.
Qed.

(** A property kept by every entry point holds after every call sequence. *)
Lemma performAll_ind (sizeofUnsignedInt : nat) (context : CudaContext)
      (P : CudaBondedUtilities -> Prop) :
  P newUtilities ->
  (forall u c, P u -> P (perform sizeofUnsignedInt context u c)) ->
  forall calls, P (performAll sizeofUnsignedInt context calls).
Proof.
  intros Hnew Hstep calls. unfold performAll.
  induction calls as [|c calls IH] using rev_ind; [exact Hnew |].
  rewrite foldl_app. cbn. apply Hstep. exact IH.
Qed.

(** The shape every reachable registry has. *)
Lemma performAll_wellformed (sizeofUnsignedInt : nat) (context : CudaContext)
      (calls : list call) :
  let u := performAll sizeofUnsignedInt context calls in
  Forall (fun atoms => atoms <> []) (forceAtoms u) /\
  length (forceSource u) = length (forceAtoms u) /\
  length (forceAtoms u) <= length (forceGroup u) /\
  length (argTypes u) = length (arguments u).
Proof.
  apply (performAll_ind sizeofUnsignedInt context (fun u =>
           Forall (fun atoms => atoms <> []) (forceAtoms u) /\
           length (forceSource u) = length (forceAtoms u) /\
           length (forceAtoms u) <= length (forceGroup u) /\
           length (argTypes u) = length (arguments u))).
  - cbn. repeat split; [constructor | lia].
  - intros u c (Hterms & Hsrc & Hgrp & Harg). destruct c; cbn [perform].
    + unfold addInteraction. destruct atoms as [|record rest]; cbn.
      * repeat split; assumption.
      * rewrite !length_app. cbn. repeat split; try lia.
        apply Forall_app. split; [exact Hterms |]. repeat constructor. discriminate.
    + cbn. rewrite !length_app. cbn. repeat split; try assumption; lia.
    + cbn. repeat split; assumption.
    + destruct (initialize_cases sizeofUnsignedInt context u)
        as [[_ ->]|[[_ ->]|[_ [k ->]]]]; cbn.
      * repeat split; assumption.
      * repeat split; assumption.
      * repeat split; [constructor | lia | assumption].
    + cbn. repeat split; assumption.
Qed.

(** The registry records the calls in their order. *)
Lemma performAll_history (sizeofUnsignedInt : nat) (context : CudaContext)
      (calls : list call) :
  let u := performAll sizeofUnsignedInt context calls in
  prefixCode u = prefixSources calls /\
  arguments u = argumentBuffers calls /\
  argTypes u = argumentTypeNames calls.
Proof.
  cbv zeta. unfold performAll.
  induction calls as [|c calls IH] using rev_ind; [repeat split; reflexivity |].
  destruct IH as (Hp & Ha & Ht).
  rewrite foldl_app. cbn [foldl].
  unfold prefixSources, argumentBuffers, argumentTypeNames.
  rewrite !flat_map_app. cbn [flat_map].
  fold (prefixSources calls) (argumentBuffers calls) (argumentTypeNames calls).
  rewrite <- Hp, <- Ha, <- Ht.
  set (u := foldl (perform sizeofUnsignedInt context) newUtilities calls).
  destruct c; cbn [perform].
  - unfold addInteraction. destruct (Nat.ltb 0 (length atoms)); cbn;
      rewrite !app_nil_r; repeat split; reflexivity.
  - cbn. repeat split; rewrite ?app_nil_r; reflexivity.
  - cbn. repeat split; rewrite ?app_nil_r; reflexivity.
  - destruct (initialize_cases sizeofUnsignedInt context u)
      as [[_ ->]|[[_ ->]|[_ [k ->]]]]; cbn;
      rewrite !app_nil_r; repeat split; reflexivity.
  - cbn. rewrite !app_nil_r. repeat split; reflexivity.
Qed.

(** X1.  After any sequence of calls: every registered term has at least
    one bond record (so [forceAtoms[i][0]] exists when [initialize] reads
    it), the snippets are as many as the terms, the groups at least as
    many (they are never cleared), and the argument types are as many as
    the arguments (so [argTypes[i]] exists when the signature is built). *)
Theorem registry_invariant (sizeofUnsignedInt : nat) (context : CudaContext)
        (calls : list call) :
  let u := performAll sizeofUnsignedInt context calls in
  Forall (fun atoms => atoms <> []) (forceAtoms u) /\
  length (forceSource u) = length (forceAtoms u) /\
  length (forceAtoms u) <= length (forceGroup u) /\
  length (argTypes u) = length (arguments u).
Proof. apply performAll_wellformed. Qed.

(** X2.  After any sequence of calls the prefix fragments, the argument
    buffers and the argument type names are exactly those handed to
    [addPrefixCode] and [addArgument], in the order of the calls; no other
    entry point adds, drops or reorders any. *)
Theorem registry_keeps_call_order (sizeofUnsignedInt : nat) (context : CudaContext)
        (calls : list call) :
  let u := performAll sizeofUnsignedInt context calls in
  prefixCode u = prefixSources calls /\
  arguments u = argumentBuffers calls /\
  argTypes u = argumentTypeNames calls.
Proof. apply performAll_history. Qed.

(** X3.  Whatever way [initialize] ends, it leaves [maxBonds] at the
    largest of its previous value and the bond counts of the registered
    terms; so no term has more bond records than [maxBonds], and
    [maxBonds] does not decrease. *)
Theorem initialize_maxBonds (sizeofUnsignedInt : nat) (context : CudaContext)
        (u : CudaBondedUtilities) :
  let u' := (initialize sizeofUnsignedInt context u).2 in
  maxBonds u' = largestBondCount (maxBonds u) (forceAtoms u) /\
  maxBonds u <= maxBonds u' /\
  Forall (fun atoms => length atoms <= maxBonds u') (forceAtoms u).
Proof.
  cbv zeta.
  assert (forall (l : list (list (list Z))) (start : nat),
            start <= largestBondCount start l /\
            Forall (fun atoms => length atoms <= largestBondCount start l) l) as Hmax.
  { unfold largestBondCount.
    induction l as [|atoms l IH] using rev_ind; intros start.
    - split; [cbn; lia | constructor].
    - rewrite fmap_app, foldl_app. cbn. destruct (IH start) as [Hle Hall]. split; [lia |].
      apply Forall_app. split.
      + eapply Forall_impl; [exact Hall |]. cbn. intros x Hx. lia.
      + repeat constructor. lia. }
  destruct (Hmax (forceAtoms u) (maxBonds u)) as [Hle Hall].
  destruct (initialize_cases sizeofUnsignedInt context u)
    as [[Hnil ->]|[[_ ->]|[_ [k ->]]]]; cbn [snd].
  - rewrite Hnil. cbn. repeat split; [lia | constructor].
  - cbn. repeat split; assumption.
  - cbn. repeat split; assumption.
Qed.

(** ** The packer, in general *)

(** X4.  A term whose first bond record is empty gets no block.  A term of
    arity [A >= 1] gets exactly one block, pushed behind the blocks its
    entry already holds, of width [max A 4] and [max A 4 * B] cells. *)
Theorem packTerm_one_block (sizeofUnsignedInt : nat) (atoms : list (list Z))
        (blocks : list CudaArray) :
  let A := length (default [] (atoms !! 0)) in
  (A = 0 -> packTerm sizeofUnsignedInt atoms blocks = blocks) /\
  (1 <= A ->
   packTerm sizeofUnsignedInt atoms blocks
   = blocks ++ [blockAt sizeofUnsignedInt atoms (length atoms) A 0] /\
   getSize (blockAt sizeofUnsignedInt atoms (length atoms) A 0)
   = Nat.max A 4 * length atoms /\
   length (contents (blockAt sizeofUnsignedInt atoms (length atoms) A 0))
   = Nat.max A 4 * length atoms).
Proof.
  cbv zeta. split.
  - intros HA. unfold packTerm. apply packLoop_done. lia.
  - intros HA. unfold packTerm. rewrite packLoop_once by lia.
    split; [reflexivity |].
    unfold blockAt, createAndUpload. cbn [getSize contents].
    rewrite chooseWidth_max, Nat.sub_0_r.
    split; apply fillIndexVec_spec.
Qed.

Lemma packTerm_one_block_witness :
  packTerm 4 [[]; [5%Z]] [] = [] /\
  packTerm 4 [[3; 8]%Z; [8; 5]%Z] []
  = [blockAt 4 [[3; 8]%Z; [8; 5]%Z] 2 2 0] /\
  getSize (blockAt 4 [[3; 8]%Z; [8; 5]%Z] 2 2 0) = 4 * 2.
Proof.
  split.
  - apply (packTerm_one_block 4 [[]; [5%Z]] []). reflexivity.
  - destruct (packTerm_one_block 4 [[3; 8]%Z; [8; 5]%Z] []) as [_ Hone].
    destruct (Hone ltac:(simpl; lia)) as (Hblocks & Hsize & _).
    split; [exact Hblocks | exact Hsize].
Defined.

(** X5.  For a term whose bond records all have [A] atoms, the block holds
    at lane [lane] of bond [b] the index [bondRecords[b][lane]] reduced
    modulo 2^32 when [lane < A], and the result of a read past the end of
    the record when [A <= lane]: the reads past the end are exactly the
    lanes [A .. 3] of every bond, and there is none when [A >= 4]. *)
Theorem blockAt_cells (sizeofUnsignedInt : nat) (atoms : list (list Z))
        (A b lane : nat) (record : list Z) :
  Forall (fun r => length r = A) atoms ->
  atoms !! b = Some record ->
  lane < Nat.max A 4 ->
  contents (blockAt sizeofUnsignedInt atoms (length atoms) A 0)
    !! (b * Nat.max A 4 + lane)
  = Some (match record !! lane with
          | Some v => Value (v mod 2 ^ 32)%Z
          | None => OutOfBounds
          end) /\
  (record !! lane = None <-> A <= lane).
Proof.
  intros Harity Hb Hlane.
  assert (length record = A) as Hlen.
  { rewrite Forall_forall in Harity. apply Harity.
    eapply list_elem_of_lookup_2. exact Hb. }
  split.
  - unfold blockAt, createAndUpload. cbn [contents].
    rewrite chooseWidth_max, Nat.sub_0_r.
    rewrite fillIndexVec_lookup;
      [| apply lookup_lt_Some in Hb; exact Hb | exact Hlane].
    unfold readAtom. rewrite Hb. cbn. reflexivity.
  - rewrite lookup_ge_None. lia.
Qed.

Lemma blockAt_cells_witness :
  contents (blockAt 4 [[3; 8]%Z; [8; 5]%Z] 2 2 0) !! (1 * Nat.max 2 4 + 2)
  = Some (match [8; 5]%Z !! 2 with
          | Some v => Value (v mod 2 ^ 32)%Z
          | None => OutOfBounds
          end) /\
  ([8; 5]%Z !! 2 = None <-> 2 <= 2).
Proof.
  apply (blockAt_cells 4 [[3; 8]%Z; [8; 5]%Z] 2 1 2 [8; 5]%Z).
  - repeat constructor.
  - reflexivity.
  - simpl. lia.
Defined.

(** ** Repeated and failed builds *)

Lemma resize_entry (previous : list (list CudaArray)) (n i : nat) :
  i < n ->
  default [] (resize n [] previous !! i) = default [] (previous !! i).
Proof.
  intros Hi. destruct (decide (i < length previous)) as [Hlt|Hge].
  - rewrite lookup_resize by lia. reflexivity.
  - rewrite lookup_resize_new by lia.
    rewrite (lookup_ge_None_2 previous i) by lia. reflexivity.
Qed.

(** The entry of a term after lines 70-89. *)
Lemma packAll_entry (sizeofUnsignedInt : nat) (u : CudaBondedUtilities)
      (i : nat) (atoms : list (list Z)) :
  forceAtoms u !! i = Some atoms ->
  atomIndices (packAll sizeofUnsignedInt u) !! i
  = Some (packTerm sizeofUnsignedInt atoms (default [] (atomIndices u !! i))).
Proof.
  intros Hat. unfold packAll. cbn [atomIndices set_atomIndices].
  destruct (buildAtomIndices_spec sizeofUnsignedInt (forceAtoms u) (atomIndices u))
    as [_ Hblocks].
  rewrite (Hblocks i atoms Hat), resize_entry; [reflexivity |].
  apply lookup_lt_Some in Hat. exact Hat.
Qed.

(** X6.  Whether [initialize] returns or throws, every registered term of
    arity [A >= 1] has one new block pushed behind whatever its entry of
    [atomIndices] held before the call: blocks left by an earlier build, or
    by an earlier failed attempt, stay in front of it. *)
Theorem initialize_appends_block (sizeofUnsignedInt : nat) (context : CudaContext)
        (u : CudaBondedUtilities) (i : nat) (atoms : list (list Z)) :
  forceAtoms u !! i = Some atoms ->
  1 <= length (default [] (atoms !! 0)) ->
  atomIndices (initialize sizeofUnsignedInt context u).2 !! i
  = Some (default [] (atomIndices u !! i)
          ++ [blockAt sizeofUnsignedInt atoms (length atoms)
                (length (default [] (atoms !! 0))) 0]).
Proof.
  intros Hat HA.
  pose proof (packAll_entry sizeofUnsignedInt u i atoms Hat) as Hentry.
  unfold packTerm in Hentry. rewrite packLoop_once in Hentry by lia.
  destruct (initialize_cases sizeofUnsignedInt context u)
    as [[Hnil _]|[[_ ->]|[_ [k ->]]]].
  - rewrite Hnil in Hat. discriminate.
  - exact Hentry.
  - exact Hentry.
Qed.

Lemma initialize_appends_block_witness :
  let context := mkContext 32 (fun _ _ => None) (fun _ _ => Some 2%N) in
  let atoms := [[0; 1]%Z; [1; 2]%Z] in
  let u := addInteraction newUtilities atoms "F" 0%Z in
  atomIndices (initialize 4 context u).2 !! 0
  = Some (default [] (atomIndices u !! 0) ++ [blockAt 4 atoms 2 2 0]).
Proof.
  intros context atoms u.
  apply (initialize_appends_block 4 context u 0 atoms).
  - reflexivity.
  - simpl. lia.
Defined.

(** X7.  When [initialize] has returned, a second call right after it
    returns as well and changes nothing: the terms were cleared, or there
    were none. *)
Theorem initialize_again_changes_nothing (sizeofUnsignedInt : nat)
        (context : CudaContext) (u : CudaBondedUtilities) :
  (initialize sizeofUnsignedInt context u).1 = Returned ->
  initialize sizeofUnsignedInt context (initialize sizeofUnsignedInt context u).2
  = (Returned, (initialize sizeofUnsignedInt context u).2).
Proof.
  intros Hret.
  destruct (initialize_cases sizeofUnsignedInt context u)
    as [[Hnil Hinit]|[[_ Hinit]|[_ [k Hinit]]]]; rewrite Hinit in *; cbn [fst snd] in *.
  - exact Hinit.
  - discriminate.
  - reflexivity.
Qed.

Lemma initialize_again_changes_nothing_witness :
  let context := mkContext 32 (fun _ _ => Some 1%N) (fun _ _ => Some 2%N) in
  let u := addInteraction newUtilities [[0; 1]%Z; [1; 2]%Z] "F" 0%Z in
  initialize 4 context (initialize 4 context u).2
  = (Returned, (initialize 4 context u).2).
Proof.
  intros context u.
  apply (initialize_again_changes_nothing 4 context u). reflexivity.
Defined.

(** X8.  When [initialize] throws (the context refuses the text or the
    kernel name), the terms, snippets, groups, arguments, prefix fragments
    and the kernel handle are as before the call, while the blocks have
    already been pushed and [maxBonds] raised. *)
Theorem initialize_threw_keeps_registrations (sizeofUnsignedInt : nat)
        (context : CudaContext) (u : CudaBondedUtilities) :
  (initialize sizeofUnsignedInt context u).1 = Threw ->
  let u' := (initialize sizeofUnsignedInt context u).2 in
  forceAtoms u <> [] /\
  forceAtoms u' = forceAtoms u /\ forceSource u' = forceSource u /\
  forceGroup u' = forceGroup u /\ arguments u' = arguments u /\
  argTypes u' = argTypes u /\ prefixCode u' = prefixCode u /\
  kernel u' = kernel u /\
  atomIndices u' = buildAtomIndices sizeofUnsignedInt (forceAtoms u) (atomIndices u) /\
  maxBonds u' = largestBondCount (maxBonds u) (forceAtoms u).
Proof.
  intros Hthrew.
  destruct (initialize_cases sizeofUnsignedInt context u)
    as [[Hnil Hinit]|[[Hterms Hinit]|[_ [k Hinit]]]]; rewrite Hinit in *;
    cbn [fst snd] in *; try discriminate.
  repeat split; try reflexivity. exact Hterms.
Qed.

Lemma initialize_threw_keeps_registrations_witness :
  let context := mkContext 32 (fun _ _ => None) (fun _ _ => Some 2%N) in
  let u := addInteraction newUtilities [[0; 1]%Z; [1; 2]%Z] "F" 0%Z in
  forceAtoms (initialize 4 context u).2 = forceAtoms u /\
  kernel (initialize 4 context u).2 = kernel u /\
  maxBonds (initialize 4 context u).2 = 2.
Proof.
  intros context u.
  destruct (initialize_threw_keeps_registrations 4 context u eq_refl)
    as (_ & Hatoms & _ & _ & _ & _ & _ & Hkernel & _ & Hmax).
  repeat split; assumption.
Defined.

(** ** Loops over a vector *)

Lemma for_loop_ext {S : Type} (n : nat) (body1 body2 : nat -> S -> S) (s : S) :
  (forall i acc, i < n -> body1 i acc = body2 i acc) ->
  for_loop n body1 s = for_loop n body2 s.
Proof.
  intros Hext. apply (for_loop_rel eq); [reflexivity |].
  intros i a b Hi ->. apply Hext. exact Hi.
Qed.

(** A loop over the indices of a vector that pushes one item per element. *)
Lemma for_loop_collect {A B : Type} (l : list A) (f : nat -> A -> B) (acc : list B) :
  for_loop (length l) (fun j acc =>
    match l !! j with
    | Some x => acc ++ [f j x]
    | None => acc
    end) acc
  = acc ++ imap f l.
Proof.
  transitivity (acc ++ imap f (take (length l) l));
    [| rewrite firstn_all; reflexivity].
  apply (for_loop_ind (fun k (r : list B) => r = acc ++ imap f (take k l))).
  - cbn. rewrite app_nil_r. reflexivity.
  - intros k r Hk ->.
    destruct (lookup_lt_is_Some_2 l k Hk) as [x Hx]. rewrite Hx.
    rewrite (take_S_r _ _ _ Hx), imap_app. cbn.
    rewrite length_take, Nat.min_l, Nat.add_0_r by lia.
    rewrite <- app_assoc. reflexivity.
Qed.

Lemma lookup_all_default {A : Type} (d : A) (l : list A) :
  (fun i => default d (l !! i)) <$> seq 0 (length l) = l.
Proof.
  apply list_eq. intros i. rewrite list_lookup_fmap.
  destruct (decide (i < length l)) as [Hlt|Hge].
  - rewrite lookup_seq_lt by lia. cbn.
    destruct (lookup_lt_is_Some_2 l i Hlt) as [x Hx]. rewrite Hx. reflexivity.
  - rewrite lookup_seq_ge by lia. cbn. symmetry. apply lookup_ge_None. lia.
Qed.

(** ** Teardown *)

(** X9.  The destructor deletes the arrays held in [atomIndices], each
    entry once, term by term and block by block, and nothing else. *)
Theorem destructor_deletes_all_blocks (u : CudaBondedUtilities) :
  destructor u = concat (atomIndices u).
Proof.
  unfold destructor.
  transitivity (concat (take (length (atomIndices u)) (atomIndices u)));
    [| rewrite firstn_all; reflexivity].
  apply (for_loop_ind (fun k (deleted : list CudaArray) =>
           deleted = concat (take k (atomIndices u)))).
  - reflexivity.
  - intros k deleted Hk ->. cbv zeta.
    destruct (lookup_lt_is_Some_2 (atomIndices u) k Hk) as [row Hrow].
    rewrite Hrow. cbn [from_option id].
    rewrite (for_loop_collect row (fun _ arr => arr)).
    rewrite (take_S_r _ _ _ Hrow), concat_app. cbn. rewrite app_nil_r.
    f_equal. change (fun (_ : nat) (arr : CudaArray) => arr) with (@const (CudaArray -> CudaArray) nat id).
    rewrite imap_const. apply list_fmap_id.
Qed.

(** ** The group guard *)

(** X10.  For a group between 0 and 30 the mask rendered into the guard of
    the term is [2 ^ group]: the guard tests the bit of the group and no
    other. *)
Theorem group_mask_is_group_bit (numBonds : nat) (group : Z) :
  (0 <= group <= 30)%Z ->
  to_int (Z.shiftl 1 group) = (2 ^ group)%Z /\
  (forall k, (0 <= k)%Z ->
     Z.testbit (to_int (Z.shiftl 1 group)) k = (k =? group)%Z) /\
  loopHeader numBonds group
  = "if ((groups&" +:+ intToString (2 ^ group) +:+ ") != 0)" +:+ nl
    +:+ "for (unsigned int index = blockIdx.x*blockDim.x+threadIdx.x; index < "
    +:+ dec numBonds +:+ "; index += blockDim.x*gridDim.x) {" +:+ nl.
Proof.
  intros Hgroup.
  assert (to_int (Z.shiftl 1 group) = (2 ^ group)%Z) as Hmask.
  { rewrite Z.shiftl_1_l. unfold to_int, UINT_MODULUS.
    assert (0 < 2 ^ group <= 2 ^ 30)%Z as Hpow.
    { split; [apply Z.pow_pos_nonneg; lia | apply Z.pow_le_mono_r; lia]. }
    rewrite Z.mod_small; [lia |].
    change (2 ^ 31)%Z with 2147483648%Z. change (2 ^ 32)%Z with 4294967296%Z.
    change (2 ^ 30)%Z with 1073741824%Z in Hpow. lia. }
  split; [exact Hmask |]. split.
  - intros k Hk. rewrite Hmask, Z.pow2_bits_eqb by lia. apply Z.eqb_sym.
  - unfold loopHeader. rewrite Hmask. reflexivity.
Qed.

Lemma group_mask_is_group_bit_witness :
  to_int (Z.shiftl 1 5) = (2 ^ 5)%Z /\
  (forall k, (0 <= k)%Z -> Z.testbit (to_int (Z.shiftl 1 5)) k = (k =? 5)%Z) /\
  loopHeader 7 5
  = "if ((groups&" +:+ intToString (2 ^ 5) +:+ ") != 0)" +:+ nl
    +:+ "for (unsigned int index = blockIdx.x*blockDim.x+threadIdx.x; index < "
    +:+ dec 7 +:+ "; index += blockDim.x*gridDim.x) {" +:+ nl.
Proof. apply (group_mask_is_group_bit 7 5). lia. Defined.

(** ** The kernel text, piece by piece *)

Lemma indexParameters_spec (u : CudaBondedUtilities) :
  indexParameters u
  = concat ((fun force => imap (indexParameter force)
                            (default [] (atomIndices u !! force)))
            <$> seq 0 (length (forceAtoms u))).
Proof.
  unfold indexParameters.
  apply (for_loop_ind (fun k (acc : list (string * string)) =>
           acc = concat ((fun force => imap (indexParameter force)
                                         (default [] (atomIndices u !! force)))
                         <$> seq 0 k))).
  - reflexivity.
  - intros force acc _ ->. cbv zeta.
    rewrite (for_loop_collect (default [] (atomIndices u !! force))
               (indexParameter force)).
    rewrite seq_S, fmap_app, concat_app. cbn. rewrite app_nil_r. reflexivity.
Qed.

Lemma argumentParameters_spec (u : CudaBondedUtilities) :
  length (argTypes u) = length (arguments u) ->
  argumentParameters u = imap argumentParameter (argTypes u).
Proof.
  intros Hlen. unfold argumentParameters. rewrite <- Hlen.
  rewrite <- (app_nil_l (imap argumentParameter (argTypes u))).
  rewrite <- (for_loop_collect (argTypes u) argumentParameter []).
  apply for_loop_ext. intros i acc Hi.
  destruct (lookup_lt_is_Some_2 (argTypes u) i Hi) as [type Htype].
  rewrite Htype. reflexivity.
Qed.

(** X11.  When the argument types are as many as the arguments, the
    signature appended to the stream is the kernel name followed by the
    comma-separated parameters: the four fixed ones, one
    [atomIndices<force>_<i>] per block of every term in term and block
    order, and one [customArg<i+1>] of the registered type per argument in
    registration order. *)
Theorem kernelSignature_shape (u : CudaBondedUtilities) (s : string) :
  length (argTypes u) = length (arguments u) ->
  kernelSignature u s
  = s +:+ "extern " +:+ dquote +:+ "C" +:+ dquote
      +:+ " __global__ void computeBondedForces("
      +:+ renderParameters
            (fixedParameters
             ++ concat ((fun force => imap (indexParameter force)
                                       (default [] (atomIndices u !! force)))
                        <$> seq 0 (length (forceAtoms u)))
             ++ imap argumentParameter (argTypes u))
      +:+ ") {" +:+ nl.
Proof.
  intros Hlen. rewrite kernelSignature_parameters. unfold kernelParameters.
  rewrite indexParameters_spec, argumentParameters_spec by exact Hlen.
  reflexivity.
Qed.

Lemma kernelSignature_shape_witness :
  let u := packAll 4 (addInteraction (addArgument newUtilities 5%N "float").2
                        [[0; 1]%Z] "F" 0%Z) in
  kernelSignature u EmptyString
  = EmptyString +:+ "extern " +:+ dquote +:+ "C" +:+ dquote
      +:+ " __global__ void computeBondedForces("
      +:+ renderParameters
            (fixedParameters
             ++ concat ((fun force => imap (indexParameter force)
                                       (default [] (atomIndices u !! force)))
                        <$> seq 0 (length (forceAtoms u)))
             ++ imap argumentParameter (argTypes u))
      +:+ ") {" +:+ nl.
Proof.
  intros u. apply (kernelSignature_shape u EmptyString). reflexivity.
Defined.

(** X12.  The kernel text is, in this order: the prefix fragments in
    registration order, verbatim; the signature; the declaration of the
    energy accumulator; the body of every term in registration order; the
    addition of the accumulator to the energy buffer and the closing
    brace. *)
Theorem kernelSource_shape (u : CudaBondedUtilities) :
  (kernelSource u).1
  = concatStrings (prefixCode u)
    +:+ kernelSignature u EmptyString
    +:+ "real energy = 0;" +:+ nl
    +:+ concatStrings (termBody u <$> seq 0 (length (forceAtoms u)))
    +:+ "energyBuffer[blockIdx.x*blockDim.x+threadIdx.x] += energy;" +:+ nl
    +:+ "}" +:+ nl.
Proof.
  unfold kernelSource. cbv zeta.
  rewrite (for_loop_append (length (prefixCode u)) _
             (fun i => default EmptyString (prefixCode u !! i)))
    by (intros; reflexivity).
  rewrite lookup_all_default.
  match goal with
  | |- context [for_loop (length (forceAtoms u)) ?body (?s0, u)] =>
      set (start := s0); set (emit := body)
  end.
  assert ((exists m, (for_loop (length (forceAtoms u)) emit (start, u)).2
                     = set_maxBonds m u) /\
          (for_loop (length (forceAtoms u)) emit (start, u)).1
          = start +:+ concatStrings (termBody u <$> seq 0 (length (forceAtoms u))))
    as [_ Hloop].
  { apply (for_loop_ind (fun k (acc : string * CudaBondedUtilities) =>
             (exists m, acc.2 = set_maxBonds m u) /\
             acc.1 = start +:+ concatStrings (termBody u <$> seq 0 k))).
    - split; [exists (maxBonds u); symmetry; apply set_maxBonds_same |].
      cbn. symmetry. apply string_app_nil_r.
    - intros k [s1 u1] Hk [[m Hm] Hs]. cbn [fst snd] in Hm, Hs. subst u1 s1.
      subst emit. cbv beta iota.
      change (forceAtoms (set_maxBonds m u)) with (forceAtoms u).
      change (forceGroup (set_maxBonds m u)) with (forceGroup u).
      change (forceSource (set_maxBonds m u)) with (forceSource u).
      match goal with
      | |- context [createForceSource (set_maxBonds m u) k ?b ?a ?g ?c] =>
          pose proof (createForceSource_registry (set_maxBonds m u) k b a g c) as Hreg;
          assert ((createForceSource (set_maxBonds m u) k b a g c).1 = termBody u k)
            as Htext by (unfold termBody; rewrite !createForceSource_text; reflexivity);
          destruct (createForceSource (set_maxBonds m u) k b a g c) as [text u2]
      end.
      cbn [fst snd] in Hreg, Htext. subst text u2. cbn [fst snd]. split.
      + eexists. reflexivity.
      + rewrite seq_S, fmap_app, concatStrings_app. cbn.
        rewrite string_app_nil_r, string_app_assoc. reflexivity. }
  destruct (for_loop (length (forceAtoms u)) emit (start, u)) as [s1 u1].
  cbn [fst] in *. subst s1 start.
  rewrite (kernelSignature_parameters u (EmptyString +:+ concatStrings (prefixCode u))).
  rewrite (kernelSignature_parameters u EmptyString).
  stream_normalize. reflexivity.
Qed.

(** X13.  The body emitted for a term is, in this order: the group guard
    and the grid-stride loop header, the declarations unpacking its blocks,
    the snippet verbatim and a line break, three [atomicAdd] lines per
    atom, and the closing brace. *)
Theorem termBody_shape (u : CudaBondedUtilities) (force : nat) :
  let atoms := default [] (forceAtoms u !! force) in
  termBody u force
  = loopHeader (length atoms) (default 0%Z (forceGroup u !! force))
    +:+ renderDeclarations (termDeclarations u force)
    +:+ default EmptyString (forceSource u !! force) +:+ nl
    +:+ concatStrings ((fun i => scatterAtom i EmptyString)
                       <$> seq 0 (length (default [] (atoms !! 0))))
    +:+ "}" +:+ nl.
Proof. cbv zeta. unfold termBody. apply createForceSource_text. Qed.

(** ** Names the signature and the bodies agree on *)

(** Every block of a term contributes its [atoms<i>] declaration. *)
Lemma termDeclarations_atoms u forceIndex i arr :
  default [] (atomIndices u !! forceIndex) !! i = Some arr ->
  mkDeclaration (indexTypeOf (getElementSize arr / 4)) ("atoms" +:+ dec i)
    ("atomIndices" +:+ dec forceIndex +:+ "_" +:+ dec i +:+ "[index]")
  ∈ termDeclarations u forceIndex.
Proof.
  unfold termDeclarations. cbv zeta.
  set (blocks := default [] (atomIndices u !! forceIndex)).
  intros Hblock.
  pose proof (lookup_lt_Some _ _ _ Hblock) as Hlt.
  revert i arr Hlt Hblock.
  apply (for_loop_ind (fun k (acc : list declaration * nat) =>
           forall i arr, i < k -> blocks !! i = Some arr ->
             mkDeclaration (indexTypeOf (getElementSize arr / 4)) ("atoms" +:+ dec i)
               ("atomIndices" +:+ dec forceIndex +:+ "_" +:+ dec i +:+ "[index]")
             ∈ acc.1)).
  - intros i arr Hi. lia.
  - intros k [acc n'] Hk IH i arr Hi Hblock.
    destruct (decide (i = k)) as [->|Hne].
    + rewrite Hblock. cbn [fst snd]. apply elem_of_app. right.
      unfold blockDeclarations. cbv zeta. apply elem_of_app. left.
      apply elem_of_cons. left. reflexivity.
    + assert (mkDeclaration (indexTypeOf (getElementSize arr / 4)) ("atoms" +:+ dec i)
                ("atomIndices" +:+ dec forceIndex +:+ "_" +:+ dec i +:+ "[index]")
              ∈ acc) as Hin
        by (apply (IH i arr); [lia | exact Hblock]).
      destruct (blocks !! k); [| exact Hin].
      cbn [fst snd]. apply elem_of_app. left. exact Hin.
Qed.

(** X14.  For every block [i] of a registered term [force], the signature
    declares the parameter [atomIndices<force>_<i>] with the index type of
    the block, and the body of the term reads that same name at the loop
    counter into [atoms<i>] with that same type. *)
Theorem atomIndices_declared_and_read (u : CudaBondedUtilities) (force i : nat)
        (arr : CudaArray) :
  force < length (forceAtoms u) ->
  default [] (atomIndices u !! force) !! i = Some arr ->
  indexParameter force i arr ∈ kernelParameters u /\
  contains (atomIndicesRead force i arr) (termBody u force).
Proof.
  intros Hforce Hblock. split.
  - unfold kernelParameters. rewrite indexParameters_spec.
    apply elem_of_app. right. apply elem_of_app. left.
    apply list_elem_of_In, in_concat.
    exists (imap (indexParameter force) (default [] (atomIndices u !! force))).
    split.
    + apply list_elem_of_In, list_elem_of_fmap. exists force. split; [reflexivity |].
      apply list_elem_of_lookup. exists force. apply lookup_seq_lt. exact Hforce.
    + apply list_elem_of_In. apply elem_of_lookup_imap_2. exact Hblock.
  - unfold termBody. rewrite createForceSource_text.
    apply contains_app_r, contains_app_l.
    unfold renderDeclarations. apply contains_concatStrings.
    apply list_elem_of_fmap.
    exists (mkDeclaration (indexTypeOf (getElementSize arr / 4)) ("atoms" +:+ dec i)
              ("atomIndices" +:+ dec force +:+ "_" +:+ dec i +:+ "[index]")).
    split.
    + unfold atomIndicesRead, renderDeclaration. cbn [declType declName declInit].
      stream_normalize. reflexivity.
    + apply termDeclarations_atoms. exact Hblock.
Qed.

Lemma atomIndices_declared_and_read_witness :
  let u := packAll 4 (addInteraction newUtilities [[0; 1]%Z; [1; 2]%Z] "F" 0%Z) in
  let arr := blockAt 4 [[0; 1]%Z; [1; 2]%Z] 2 2 0 in
  indexParameter 0 0 arr ∈ kernelParameters u /\
  contains (atomIndicesRead 0 0 arr) (termBody u 0).
Proof.
  intros u arr. apply (atomIndices_declared_and_read u 0 0 arr).
  - simpl. lia.
  - reflexivity.
Defined.

(** X15.  After any sequence of calls, the signature declares the
    arguments as [customArg1], [customArg2], ... with the type names
    handed to [addArgument], in the order of the calls; and the name a
    further [addArgument] returns is the name of the last parameter of the
    signature built afterwards, declared with the type name given. *)
Theorem argument_names_match_signature (sizeofUnsignedInt : nat)
        (context : CudaContext) (calls : list call) :
  let u := performAll sizeofUnsignedInt context calls in
  argumentParameters u = imap argumentParameter (argumentTypeNames calls) /\
  forall (data : CUdeviceptr) (type : string),
    last (kernelParameters (addArgument u data type).2)
    = Some (type +:+ "*", (addArgument u data type).1).
Proof.
  cbv zeta.
  destruct (performAll_wellformed sizeofUnsignedInt context calls)
    as (_ & _ & _ & Hlen).
  destruct (performAll_history sizeofUnsignedInt context calls) as (_ & _ & Htypes).
  cbv zeta in Hlen, Htypes. split.
  - rewrite argumentParameters_spec by exact Hlen. rewrite Htypes. reflexivity.
  - intros data type. unfold kernelParameters.
    rewrite argumentParameters_spec
      by (unfold addArgument; cbn; rewrite !length_app; cbn; lia).
    unfold addArgument. cbn [snd fst argTypes arguments].
    rewrite imap_app. cbn [imap]. rewrite !app_assoc, last_snoc.
    unfold argumentParameter. cbn [compose]. rewrite length_app, Hlen. cbn.
    rewrite Nat.add_0_r. reflexivity.
Qed.

(** ** Building more than once *)

(** X16.  When [initialize] throws and is called again, every registered
    term of arity [A >= 1] ends with its block twice in its entry of
    [atomIndices]: the failed attempt leaves its block and the terms in
    place, and the second attempt packs the terms again. *)
Theorem initialize_retry_packs_twice (sizeofUnsignedInt : nat) (context : CudaContext)
        (u : CudaBondedUtilities) (i : nat) (atoms : list (list Z)) :
  (initialize sizeofUnsignedInt context u).1 = Threw ->
  forceAtoms u !! i = Some atoms ->
  1 <= length (default [] (atoms !! 0)) ->
  let block :=
    blockAt sizeofUnsignedInt atoms (length atoms) (length (default [] (atoms !! 0))) 0 in
  atomIndices
    (initialize sizeofUnsignedInt context
       (initialize sizeofUnsignedInt context u).2).2 !! i
  = Some (default [] (atomIndices u !! i) ++ [block; block]).
Proof.
  intros Hthrew Hat HA block.
  pose proof (packAll_entry sizeofUnsignedInt u i atoms Hat) as Hfirst.
  unfold packTerm in Hfirst. rewrite packLoop_once in Hfirst by lia.
  fold block in Hfirst.
  destruct (initialize_cases sizeofUnsignedInt context u)
    as [[_ Hinit]|[[_ Hinit]|[_ [k Hinit]]]]; rewrite Hinit in *;
    cbn [fst snd] in *; try discriminate.
  set (failed := set_maxBonds (largestBondCount (maxBonds u) (forceAtoms u))
                   (packAll sizeofUnsignedInt u)) in *.
  assert (forceAtoms failed !! i = Some atoms) as Hat' by exact Hat.
  pose proof (packAll_entry sizeofUnsignedInt failed i atoms Hat') as Hsecond.
  change (atomIndices failed) with (atomIndices (packAll sizeofUnsignedInt u)) in Hsecond.
  rewrite Hfirst in Hsecond. cbn [from_option id] in Hsecond.
  unfold packTerm in Hsecond. rewrite packLoop_once in Hsecond by lia.
  fold block in Hsecond. rewrite <- app_assoc in Hsecond. cbn [app] in Hsecond.
  destruct (initialize_cases sizeofUnsignedInt context failed)
    as [[Hnil _]|[[_ ->]|[_ [k ->]]]].
  - rewrite Hnil in Hat'. discriminate.
  - exact Hsecond.
  - exact Hsecond.
Qed.

Lemma initialize_retry_packs_twice_witness :
  let context := mkContext 32 (fun _ _ => None) (fun _ _ => Some 2%N) in
  let atoms := [[0; 1]%Z; [1; 2]%Z] in
  let u := addInteraction newUtilities atoms "F" 0%Z in
  atomIndices (initialize 4 context (initialize 4 context u).2).2 !! 0
  = Some (default [] (atomIndices u !! 0)
          ++ [blockAt 4 atoms 2 2 0; blockAt 4 atoms 2 2 0]).
Proof.
  intros context atoms u.
  apply (initialize_retry_packs_twice 4 context u 0 atoms).
  - reflexivity.
  - reflexivity.
  - simpl. lia.
Defined.

(** X17.  [initialize] clears the terms and the snippets but not the
    groups.  So when a term is registered after a build that returned, it
    is term 0 of the next build while its group is stored behind the groups
    of the earlier terms: the body emitted for it is guarded by the group of
    the first term ever registered, not by its own. *)
Theorem rebuild_guards_with_first_group (sizeofUnsignedInt : nat)
        (context : CudaContext) (u : CudaBondedUtilities)
        (g0 : Z) (groups : list Z)
        (record : list Z) (rest : list (list Z)) (source : string) (group : Z) :
  forceAtoms u <> [] ->
  forceGroup u = g0 :: groups ->
  (initialize sizeofUnsignedInt context u).1 = Returned ->
  let u2 := addInteraction (initialize sizeofUnsignedInt context u).2
              (record :: rest) source group in
  forceAtoms u2 = [record :: rest] /\
  forceGroup u2 = g0 :: groups ++ [group] /\
  exists tail,
    termBody (packAll sizeofUnsignedInt u2) 0
    = loopHeader (S (length rest)) g0 +:+ tail.
Proof.
  intros Hterms Hgroups Hret.
  destruct (initialize_cases sizeofUnsignedInt context u)
    as [[Hnil _]|[[_ Hinit]|[_ [k Hinit]]]]; [congruence | |];
    rewrite Hinit in *; cbn [fst snd] in *; try discriminate.
  unfold addInteraction. cbn [length Nat.ltb Nat.leb].
  cbn [forceAtoms forceGroup sealed set_maxBonds packAll set_atomIndices app].
  rewrite Hgroups. split; [reflexivity |]. split; [reflexivity |].
  unfold termBody. rewrite createForceSource_text.
  cbn [forceAtoms forceGroup forceSource sealed set_maxBonds packAll set_atomIndices
       app lookup list_lookup from_option id length].
  eexists. reflexivity.
Qed.

Lemma rebuild_guards_with_first_group_witness :
  let context := mkContext 32 (fun _ _ => Some 1%N) (fun _ _ => Some 2%N) in
  let u := addInteraction newUtilities [[0; 1]%Z] "F" 3%Z in
  let u2 := addInteraction (initialize 4 context u).2 [[4; 5]%Z] "G" 1%Z in
  forceAtoms u2 = [[[4; 5]%Z]] /\
  forceGroup u2 = 3%Z :: [] ++ [1%Z] /\
  exists tail, termBody (packAll 4 u2) 0 = loopHeader 1 3 +:+ tail.
Proof.
  intros context u.
  apply (rebuild_guards_with_first_group 4 context u 3%Z [] [4; 5]%Z [] "G" 1%Z).
  - discriminate.
  - reflexivity.
  - reflexivity.
Defined.
